(** * Session hook notification pipeline

    A shallow embedding of the two programs of the pipeline:

    - [Forwarder]: the hook forwarder script ([session_hook_forwarder.cjs]),
      which relays its standard input to the hook server with one HTTP POST,
      when [http.request] takes up the port and the path it is given;
    - [HookServer]: the request listener of [startHookServer], which routes
      three POST paths to the callbacks of the parent process;

    and of the key listener and the rows of the permission mode selector
    ([Selector]).

    [JS] holds the pieces of the JavaScript platform the two programs call:
    strings as sequences of UTF-16 code units, the values [JSON.parse] can
    return, [Buffer.toString('utf-8')], [JSON.parse] and [parseInt]. *)

From Stdlib Require Import List Bool NArith ZArith Lia.
From Stdlib Require Import Strings.Ascii Strings.String Strings.Byte.
Import ListNotations.

Set Implicit Arguments.
Set Warnings "-register-all".

Module JS.

Local Open Scope N_scope.

(** ** Strings *)

(** A JavaScript string is a sequence of 16-bit code units. *)
Definition jsstring := list N.

(** An ASCII literal as a JavaScript string. *)
Definition str (s : string) : jsstring :=
  map N_of_ascii (list_ascii_of_string s).

(** [===] on two strings. *)
Fixpoint str_eqb (a b : jsstring) : bool :=
  match a, b with
  | [], [] => true
  | x :: a', y :: b' => (x =? y) && str_eqb a' b'
  | _, _ => false
  end.

(** ** Values *)

(** A number is kept as the decimal literal it was read from: it stands for
    (-1)^[negative] * [digits] * 10^[exponent].  The double that JavaScript
    stores is the nearest binary64 to that value; the programs only ever test
    it against zero, which [is_zero] decides exactly. *)
Record number := Num { negative : bool; digits : N; exponent : Z }.

(** The nearest binary64 is (plus or minus) zero exactly when the magnitude
    is at most 2^-1075, half the least subnormal (the tie goes to the even
    significand, which is zero). *)
Definition is_zero (n : number) : bool :=
  (digits n =? 0) ||
  ((exponent n <? 0)%Z &&
   (digits n * 2 ^ 1075 <=? 10 ^ Z.to_N (- exponent n))).

Inductive value :=
| JUndefined
| JNull
| JBool (b : bool)
| JNumber (n : number)
| JString (s : jsstring)
| JArray (elements : list value)
| JObject (props : list (jsstring * value)).

(** Own properties of an object, in creation order, one entry per key. *)
Definition props := list (jsstring * value).

Fixpoint lookup (k : jsstring) (o : props) : option value :=
  match o with
  | [] => None
  | (k', v) :: o' => if str_eqb k k' then Some v else lookup k o'
  end.

(** [CreateDataProperty]: a key already there keeps its place and takes the
    new value. *)
Fixpoint define (k : jsstring) (v : value) (o : props) : props :=
  match o with
  | [] => [(k, v)]
  | (k', v') :: o' =>
      if str_eqb k k' then (k', v) :: o' else (k', v') :: define k v o'
  end.

(** What a JavaScript operation leaves behind: a value, or a thrown error. *)
Inductive exn :=
| TypeError
| ERR_HTTP_HEADERS_SENT
| SyntaxError
| StreamError
| ERR_UNESCAPED_CHARACTERS
| ERR_SOCKET_BAD_PORT
| Thrown (tag : nat).

Inductive completion (A : Type) :=
| Normal (a : A)
| Throw (e : exn).
Arguments Normal {A} a.
Arguments Throw {A} e.

(** [ToBoolean]. *)
Definition ToBoolean (v : value) : bool :=
  match v with
  | JUndefined | JNull => false
  | JBool b => b
  | JNumber n => negb (is_zero n)
  | JString s => match s with [] => false | _ => true end
  | JArray _ | JObject _ => true
  end.

(** [a || b] on values already evaluated ([b] here never has an effect). *)
Definition or_else (a b : value) : value :=
  if ToBoolean a then a else b.

(** [v.k] for a key [k] that is neither an index, nor [length], nor a name of
    a built-in prototype; the two keys the server reads are of that kind.
    Reading a property of [null] or [undefined] throws; primitives and arrays
    have no such property; an object answers with its own property. *)
Definition Get (v : value) (k : jsstring) : completion value :=
  match v with
  | JUndefined | JNull => Throw TypeError
  | JObject o => Normal (match lookup k o with Some x => x | None => JUndefined end)
  | _ => Normal JUndefined
  end.

(** Does [ToString] throw on [v], a value built by [JSON.parse]?  An object
    whose own [toString] property shadows the inherited method cannot be
    converted (no value of JSON is callable, and the inherited [valueOf]
    returns the object itself); an array joins the conversions of its
    elements, [null] and [undefined] ones excepted. *)
Fixpoint ToString_throws (v : value) : bool :=
  match v with
  | JObject o =>
      match lookup (str "toString") o with Some _ => true | None => false end
  | JArray l => existsb ToString_throws l
  | _ => false
  end.

(** ** [Buffer.toString('utf-8')] *)

Definition Buffer := list byte.

(** [Buffer.concat(chunks)] *)
Definition Buffer_concat (chunks : list Buffer) : Buffer := List.concat chunks.

(** State of the decoder between two bytes: the code point being assembled,
    how many continuation bytes are still due, and the range allowed for the
    next byte. *)
Record utf8 := Utf8 { code_point : N; due : nat; lower : N; upper : N }.

Definition utf8_init : utf8 := Utf8 0 0 0x80 0xBF.

Definition in_range (lo hi b : N) : bool := (lo <=? b) && (b <=? hi).

(** A code point as one code unit, or as a surrogate pair. *)
Definition utf16 (cp : N) : jsstring :=
  if cp <? 0x10000 then [cp]
  else [0xD800 + N.shiftr (cp - 0x10000) 10;
        0xDC00 + N.land (cp - 0x10000) 0x3FF].

(** A byte read when no sequence is open. *)
Definition utf8_lead (b : N) : utf8 * jsstring :=
  if b <? 0x80 then (utf8_init, [b])
  else if in_range 0xC2 0xDF b then (Utf8 (N.land b 0x1F) 1 0x80 0xBF, [])
  else if in_range 0xE0 0xEF b then
    (Utf8 (N.land b 0xF) 2
          (if b =? 0xE0 then 0xA0 else 0x80)
          (if b =? 0xED then 0x9F else 0xBF), [])
  else if in_range 0xF0 0xF4 b then
    (Utf8 (N.land b 0x7) 3
          (if b =? 0xF0 then 0x90 else 0x80)
          (if b =? 0xF4 then 0x8F else 0xBF), [])
  else (utf8_init, [0xFFFD]).

(** One byte.  A byte that cannot continue the open sequence closes it with
    U+FFFD and is read again as a lead byte. *)
Definition utf8_step (st : utf8) (b : N) : utf8 * jsstring :=
  match due st with
  | O => utf8_lead b
  | S n =>
      if in_range (lower st) (upper st) b then
        let cp := N.lor (N.shiftl (code_point st) 6) (N.land b 0x3F) in
        match n with
        | O => (utf8_init, utf16 cp)
        | S _ => (Utf8 cp n 0x80 0xBF, [])
        end
      else
        let (st', out) := utf8_lead b in (st', 0xFFFD :: out)
  end.

Fixpoint utf8_run (st : utf8) (bs : Buffer) : jsstring :=
  match bs with
  | [] => match due st with O => [] | S _ => [0xFFFD] end
  | b :: bs' =>
      let (st', out) := utf8_step st (Byte.to_N b) in out ++ utf8_run st' bs'
  end.

Definition toString_utf8 (b : Buffer) : jsstring := utf8_run utf8_init b.

(** [Buffer.from(array)]: each entry taken modulo 256. *)
Definition Buffer_from (l : list N) : Buffer :=
  map (fun n => match Byte.of_N (n mod 256) with
                | Some b => b
                | None => x00
                end) l.

(** The bytes of an ASCII literal, every apostrophe standing for a double
    quote, so that JSON texts can be written down legibly. *)
Definition json_bytes (s : string) : Buffer :=
  map (fun c => if Ascii.eqb c "'"%char then byte_of_ascii (ascii_of_N 34)
                else byte_of_ascii c)
      (list_ascii_of_string s).

(** ** [JSON.parse] *)

(** The code unit of an ASCII character; the double quote is [dquote]. *)
Definition ch (c : ascii) : N := N_of_ascii c.
Definition dquote : N := 34.

Definition is_digit (c : N) : bool := in_range 48 57 c.

(** JSON white space: tab, line feed, carriage return, space. *)
Definition is_json_ws (c : N) : bool :=
  (c =? 9) || (c =? 10) || (c =? 13) || (c =? 32).

Fixpoint skip_ws (s : jsstring) : jsstring :=
  match s with
  | c :: r => if is_json_ws c then skip_ws r else s
  | [] => []
  end.

(** The longest run of decimal digits at the head of [s], added to [acc];
    [n] counts the digits read. *)
Fixpoint span_digits (s : jsstring) (acc : N) (n : nat) : N * nat * jsstring :=
  match s with
  | c :: r =>
      if is_digit c then span_digits r (acc * 10 + (c - 48)) (S n)
      else (acc, n, s)
  | [] => (acc, n, [])
  end.

Definition hex_digit (c : N) : option N :=
  if is_digit c then Some (c - 48)
  else if in_range 65 70 c then Some (c - 55)
  else if in_range 97 102 c then Some (c - 87)
  else None.

Definition hex4 (a b c d : N) : option N :=
  match hex_digit a, hex_digit b, hex_digit c, hex_digit d with
  | Some x, Some y, Some z, Some w => Some (((x * 16 + y) * 16 + z) * 16 + w)
  | _, _, _, _ => None
  end.

(** The character a one-letter escape stands for. *)
Definition escape (c : N) : option N :=
  if (c =? dquote) || (c =? ch "\") || (c =? ch "/") then Some c
  else if c =? ch "b" then Some 8
  else if c =? ch "f" then Some 12
  else if c =? ch "n" then Some 10
  else if c =? ch "r" then Some 13
  else if c =? ch "t" then Some 9
  else None.

(** A string literal after its opening quote: the characters up to the
    closing quote, and what follows it. *)
Fixpoint string_chars (s acc : jsstring) : option (jsstring * jsstring) :=
  match s with
  | [] => None
  | c :: r =>
      if c =? dquote then Some (rev acc, r)
      else if c =? ch "\" then
        match r with
        | [] => None
        | e :: r' =>
            if e =? ch "u" then
              match r' with
              | h1 :: h2 :: h3 :: h4 :: r'' =>
                  match hex4 h1 h2 h3 h4 with
                  | Some u => string_chars r'' (u :: acc)
                  | None => None
                  end
              | _ => None
              end
            else
              match escape e with
              | Some u => string_chars r' (u :: acc)
              | None => None
              end
        end
      else if c <? 32 then None
      else string_chars r (c :: acc)
  end.

(** An optional sign, [-] or [+]: whether it is a minus, and what follows. *)
Definition sign (s : jsstring) : bool * jsstring :=
  match s with
  | c :: r =>
      if c =? ch "-" then (true, r)
      else if c =? ch "+" then (false, r)
      else (false, s)
  | [] => (false, [])
  end.

(** An optional minus. *)
Definition minus (s : jsstring) : bool * jsstring :=
  match s with
  | c :: r => if c =? ch "-" then (true, r) else (false, s)
  | [] => (false, [])
  end.

(** The integer part of a number literal: [0], or a run of digits that does
    not start with [0]. *)
Definition integer_part (s : jsstring) : option (N * jsstring) :=
  match s with
  | c :: r =>
      if is_digit c then
        if c =? ch "0" then Some (0, r)
        else let '(i, _, r') := span_digits s 0 0 in Some (i, r')
      else None
  | [] => None
  end.

(** The fraction of a number literal: a dot and at least one digit.  Gives
    the digits read so far extended by the fraction, and its length. *)
Definition fraction (s : jsstring) (int : N) : option (N * nat * jsstring) :=
  match s with
  | c :: r =>
      if c =? ch "." then
        match span_digits r int 0 with
        | (_, O, _) => None
        | (m, S k, r') => Some (m, S k, r')
        end
      else Some (int, O, s)
  | [] => Some (int, O, [])
  end.

(** The exponent part: [e] or [E], an optional sign, at least one digit. *)
Definition exponent_part (s : jsstring) : option (Z * jsstring) :=
  match s with
  | c :: r =>
      if (c =? ch "e") || (c =? ch "E") then
        let (neg, r1) := sign r in
        match span_digits r1 0 0 with
        | (_, O, _) => None
        | (e, S _, r2) => Some (if neg then (- Z.of_N e)%Z else Z.of_N e, r2)
        end
      else Some (0%Z, s)
  | [] => Some (0%Z, [])
  end.

(** A number literal: an optional minus, the integer part, then an optional
    fraction and exponent. *)
Definition number_literal (s : jsstring) : option (number * jsstring) :=
  let (neg, s1) := minus s in
  match integer_part s1 with
  | Some (int, s2) =>
      match fraction s2 int with
      | Some (m, k, s3) =>
          match exponent_part s3 with
          | Some (e, s4) => Some (Num neg m (e - Z.of_nat k), s4)
          | None => None
          end
      | None => None
      end
  | None => None
  end.

(** [s] with the prefix [p] removed, when it starts with [p]. *)
Fixpoint strip_prefix (p s : jsstring) : option jsstring :=
  match p, s with
  | [], _ => Some s
  | x :: p', y :: s' => if x =? y then strip_prefix p' s' else None
  | _ :: _, [] => None
  end.

Inductive parsed :=
| Parsed (v : value) (rest : jsstring)
| Malformed
| OutOfFuel.

(** One JSON value at the head of [s], white space before it skipped. *)
Fixpoint value_at (fuel : nat) (s : jsstring) : parsed :=
  match fuel with
  | O => OutOfFuel
  | S fuel' =>
      match skip_ws s with
      | [] => Malformed
      | c :: r =>
          if c =? dquote then
            match string_chars r [] with
            | Some (t, r') => Parsed (JString t) r'
            | None => Malformed
            end
          else if c =? ch "[" then
            match skip_ws r with
            | c' :: r' =>
                if c' =? ch "]" then Parsed (JArray []) r'
                else elements_at fuel' r []
            | [] => Malformed
            end
          else if c =? ch "{" then
            match skip_ws r with
            | c' :: r' =>
                if c' =? ch "}" then Parsed (JObject []) r'
                else members_at fuel' r []
            | [] => Malformed
            end
          else
            match strip_prefix (str "null") (c :: r),
                  strip_prefix (str "true") (c :: r),
                  strip_prefix (str "false") (c :: r) with
            | Some r', _, _ => Parsed JNull r'
            | _, Some r', _ => Parsed (JBool true) r'
            | _, _, Some r' => Parsed (JBool false) r'
            | None, None, None =>
                match number_literal (c :: r) with
                | Some (n, r') => Parsed (JNumber n) r'
                | None => Malformed
                end
            end
      end
  end

(** The elements of an array after [[] or a comma, up to the closing
    bracket; [acc] holds the elements read so far, last first. *)
with elements_at (fuel : nat) (s : jsstring) (acc : list value) : parsed :=
  match fuel with
  | O => OutOfFuel
  | S fuel' =>
      match value_at fuel' s with
      | Parsed v r =>
          match skip_ws r with
          | c :: r' =>
              if c =? ch "," then elements_at fuel' r' (v :: acc)
              else if c =? ch "]" then Parsed (JArray (rev (v :: acc))) r'
              else Malformed
          | [] => Malformed
          end
      | Malformed => Malformed
      | OutOfFuel => OutOfFuel
      end
  end

(** The members of an object after [{] or a comma, up to the closing brace;
    a key read twice keeps the later value. *)
with members_at (fuel : nat) (s : jsstring) (acc : props) : parsed :=
  match fuel with
  | O => OutOfFuel
  | S fuel' =>
      match skip_ws s with
      | c :: r =>
          if c =? dquote then
            match string_chars r [] with
            | Some (k, r1) =>
                match skip_ws r1 with
                | c1 :: r2 =>
                    if c1 =? ch ":" then
                      match value_at fuel' r2 with
                      | Parsed v r3 =>
                          match skip_ws r3 with
                          | c3 :: r4 =>
                              if c3 =? ch "," then
                                members_at fuel' r4 (define k v acc)
                              else if c3 =? ch "}" then
                                Parsed (JObject (define k v acc)) r4
                              else Malformed
                          | [] => Malformed
                          end
                      | Malformed => Malformed
                      | OutOfFuel => OutOfFuel
                      end
                    else Malformed
                | [] => Malformed
                end
            | None => Malformed
            end
          else Malformed
      | [] => Malformed
      end
  end.

(** Fuel that [value_at] never exhausts on [s] (see [value_at_fuel]). *)
Definition fuel_for (s : jsstring) : nat := 2 * List.length s + 2.

(** [JSON.parse(text)]: the value of the text, or a [SyntaxError] when the
    text is not exactly one JSON value between optional white space. *)
Definition JSON_parse (text : jsstring) : completion value :=
  match value_at (fuel_for text) text with
  | Parsed v rest =>
      match skip_ws rest with
      | [] => Normal v
      | _ :: _ => Throw SyntaxError
      end
  | Malformed | OutOfFuel => Throw SyntaxError
  end.

(** ** [parseInt(string, 10)] *)

(** White space and line terminators that [parseInt] skips. *)
Definition is_StrWhiteSpaceChar (c : N) : bool :=
  in_range 9 13 c || (c =? 32) || (c =? 0xA0) || (c =? 0x1680) ||
  in_range 0x2000 0x200A c || (c =? 0x2028) || (c =? 0x2029) ||
  (c =? 0x202F) || (c =? 0x205F) || (c =? 0x3000) || (c =? 0xFEFF).

Fixpoint trim_start (s : jsstring) : jsstring :=
  match s with
  | c :: r => if is_StrWhiteSpaceChar c then trim_start r else s
  | [] => []
  end.

(** [None] is [NaN].  The integer is the mathematical value of the digits.
    JavaScript keeps the double nearest to it: the same number below 2^53, a
    number of at least 2^53 (or an infinity) from there on, and zero only
    for zero.  The forwarder tests the result against [NaN] and zero and
    hands it to [http.request], which takes it up only between 0 and 65535:
    on all of these the double and the integer agree. *)
Definition parseInt (s : jsstring) : option Z :=
  let (neg, s1) := sign (trim_start s) in
  match span_digits s1 0 0 with
  | (_, O, _) => None
  | (m, S _, _) => Some (if neg then (- Z.of_N m)%Z else Z.of_N m)
  end.

(** A string is numeric for [parseInt] when a decimal digit follows its
    leading white space and optional sign. *)
Definition numeric (s : jsstring) : bool :=
  match snd (sign (trim_start s)) with
  | c :: _ => is_digit c
  | [] => false
  end.

(** [ToString(undefined)], which is what [parseInt] reads when its argument
    is missing. *)
Definition undefined_text : jsstring := str "undefined".

End JS.

(** * The hook forwarder *)

Module Forwarder.
Import JS.

(** A header value is a string or a number. *)
Inductive header_value :=
| HText (s : jsstring)
| HNumber (n : nat).

(** The options object passed to [http.request]. *)
Record request_options := RequestOptions {
  host : jsstring;
  port : Z;
  method : jsstring;
  path : jsstring;
  headers : list (jsstring * header_value)
}.

(** What the process does to the outside: [process.exit(code)],
    [process.stdin.resume()], which starts the reading of standard input,
    [http.request(options, ...)] followed by [req.end(body)], and an error
    that nothing catches, which ends the process. *)
Inductive effect :=
| Exit (code : Z)
| StdinResume
| HttpRequest (options : request_options) (body : Buffer)
| Uncaught (e : exn).

(** What standard input delivers: chunks, then end of stream. *)
Inductive stdin_event :=
| Chunk (b : Buffer)
| Eof.

(** [parseInt(process.argv[2], 10)] *)
Definition port_of (argv : list jsstring) : option Z :=
  parseInt (match nth_error argv 2 with
            | Some s => s
            | None => undefined_text
            end).

(** [process.argv[3] || 'session-start'] *)
Definition eventType_of (argv : list jsstring) : jsstring :=
  match nth_error argv 3 with
  | Some (c :: s) => c :: s
  | Some [] | None => str "session-start"
  end.

(** [!port || isNaN(port)] *)
Definition rejected (port : option Z) : bool :=
  match port with
  | None => true
  | Some p => (p =? 0)%Z
  end.

(** A request path [http.request] takes up: no character outside U+0021 to
    U+00FF. *)
Definition valid_path (path : jsstring) : bool :=
  forallb (in_range 0x21 0xFF) path.

(** A port [http.request] takes up: an integer from 0 to 65535. *)
Definition valid_port (port : Z) : bool :=
  ((0 <=? port) && (port <=? 65535))%Z.

(** [http.request(options, ...)] as far as the forwarder can tell: it throws,
    before anything is sent, on a path with an unescaped character and on a
    port out of range, the path being looked at first. *)
Definition http_request (options : request_options) : completion unit :=
  if negb (valid_path (path options)) then Throw ERR_UNESCAPED_CHARACTERS
  else if negb (valid_port (port options)) then Throw ERR_SOCKET_BAD_PORT
  else Normal tt.

(** The listener of ['end']: one request carrying the concatenated chunks.
    Nothing is around the call of [http.request] to catch what it throws, and
    [req.end(body)] is reached only when it returns. *)
Definition on_end (port : Z) (eventType : jsstring) (chunks : list Buffer)
  : effect :=
  let body := Buffer_concat chunks in
  let options :=
    {| host := str "127.0.0.1";
       port := port;
       method := str "POST";
       path := str "/hook/" ++ eventType;
       headers := [(str "Content-Type", HText (str "application/json"));
                   (str "Content-Length", HNumber (List.length body))] |} in
  match http_request options with
  | Normal _ => HttpRequest options body
  | Throw e => Uncaught e
  end.

(** The two listeners at work on what standard input delivers; [chunks] is
    the array of the same name. *)
Fixpoint listen (port : Z) (eventType : jsstring) (chunks : list Buffer)
    (input : list stdin_event) : list effect :=
  match input with
  | [] => []
  | Chunk c :: input' => listen port eventType (chunks ++ [c]) input'
  | Eof :: _ => [on_end port eventType chunks]
  end.

(** The script, run with [argv] on the input [input]. *)
Definition session_hook_forwarder (argv : list jsstring)
    (input : list stdin_event) : list effect :=
  let port := port_of argv in
  let eventType := eventType_of argv in
  if rejected port then [Exit 1]
  else
    match port with
    | Some p => StdinResume :: listen p eventType [] input
    | None => [Exit 1]
    end.

End Forwarder.

(** * The hook server *)

Module HookServer.
Import JS.

Inductive hook := UserPromptSubmit | Stop | SessionStart.

(** The three tests on [req.method] and [req.url], in the order of the
    listener. *)
Definition route (method url : jsstring) : option hook :=
  if str_eqb method (str "POST")
     && str_eqb url (str "/hook/user-prompt-submit") then Some UserPromptSubmit
  else if str_eqb method (str "POST")
          && str_eqb url (str "/hook/stop") then Some Stop
  else if str_eqb method (str "POST")
          && str_eqb url (str "/hook/session-start") then Some SessionStart
  else None.

(** The callbacks, each by what a call of it leaves behind, as a function
    of its arguments.  The interface declares [onSessionHook] without [?]; at
    run time the slot holds whatever the caller passed, so all three are
    options here and [conforms] says which structures the interface
    allows. *)
Record HookServerOptions := Options {
  onSessionHook : option (value -> value -> completion unit);
  onThinkingStart : option (unit -> completion unit);
  onThinkingStop : option (unit -> completion unit)
}.

Definition conforms (o : HookServerOptions) : bool :=
  match onSessionHook o with Some _ => true | None => false end.

(** What a request does to the outside, in order: a response written, a
    callback called. *)
Inductive effect :=
| Respond (status : nat) (headers : list (jsstring * jsstring)) (body : jsstring)
| ThinkingStart
| ThinkingStop
| SessionHook (sessionId data : value).

Definition is_response (e : effect) : bool :=
  match e with Respond _ _ _ => true | _ => false end.

Definition is_call (e : effect) : bool := negb (is_response e).

Inductive timer_state := NoTimer | Armed | Fired | Cleared.

Record world := World { trace : list effect; timer : timer_state }.

(** Synchronous code: it reads and changes the world, and returns or
    throws. *)
Definition M (A : Type) := world -> completion A * world.

Definition ret {A} (a : A) : M A := fun w => (Normal a, w).

Definition throw {A} (e : exn) : M A := fun w => (Throw e, w).

Definition bind {A B} (m : M A) (k : A -> M B) : M B :=
  fun w =>
    match m w with
    | (Normal a, w') => k a w'
    | (Throw e, w') => (Throw e, w')
    end.

Definition lift {A} (c : completion A) : M A := fun w => (c, w).

Notation "x <- m ;; k" := (bind m (fun x => k))
  (at level 61, m at next level, right associativity).
Notation "m ;; k" := (bind m (fun _ => k))
  (at level 61, right associativity).

(** [try { body } catch (error) { handler }] *)
Definition try_catch (body : M unit) (handler : exn -> M unit) : M unit :=
  fun w =>
    match body w with
    | (Normal a, w') => (Normal a, w')
    | (Throw e, w') => handler e w'
    end.

Definition emit (e : effect) : M unit :=
  fun w => (Normal tt, World (trace w ++ [e]) (timer w)).

(** [res.headersSent] *)
Definition headersSent : M bool :=
  fun w => (Normal (existsb is_response (trace w)), w).

(** [res.writeHead(status, headers).end(body)]; [writeHead] throws once the
    headers have been sent. *)
Definition writeHead_end (status : nat) (headers : list (jsstring * jsstring))
    (body : jsstring) : M unit :=
  sent <- headersSent ;;
  if sent then throw ERR_HTTP_HEADERS_SENT
  else emit (Respond status headers body).

(** [clearTimeout(timeout)] *)
Definition clearTimeout : M unit :=
  fun w =>
    (Normal tt,
     match timer w with
     | Armed => World (trace w) Cleared
     | _ => w
     end).

(** [cb?.()] *)
Definition call_optional (cb : option (unit -> completion unit)) (e : effect)
  : M unit :=
  match cb with
  | None => ret tt
  | Some f => emit e ;; lift (f tt)
  end.

(** [onSessionHook(sessionId, data)]; calling [undefined] throws. *)
Definition call_onSessionHook
    (cb : option (value -> value -> completion unit)) (sessionId data : value)
  : M unit :=
  match cb with
  | None => throw TypeError
  | Some f => emit (SessionHook sessionId data) ;; lift (f sessionId data)
  end.

Definition text_plain : list (jsstring * jsstring) :=
  [(str "Content-Type", str "text/plain")].

(** Modelled from the spec: [logger.debug] of [@/ui/logger], which is not
    among the sources.  The spec has the server log and go on; a call
    returns, and leaves the response and the callbacks alone. *)
Definition logger_debug : M unit := ret tt.

(** [JSON.parse(body)] under the inner [try], whose [catch] only logs;
    [data] starts as [{}]. *)
Definition parse_data (body : jsstring) : value :=
  match JSON_parse body with
  | Normal v => v
  | Throw _ => JObject []
  end.

(** [data.session_id || data.sessionId] *)
Definition sessionId_of (data : value) : M value :=
  a <- lift (Get data (str "session_id")) ;;
  if ToBoolean a then ret a else lift (Get data (str "sessionId")).

(** The session route from the decoding of the body to the call of the
    callback.  The debug line before the call builds its message from
    [sessionId] with a template literal, which converts it to a string. *)
Definition session_hook (o : HookServerOptions) (chunks : list Buffer)
  : M unit :=
  let body := toString_utf8 (Buffer_concat chunks) in
  logger_debug ;;
  let data := parse_data body in
  sessionId <- sessionId_of data ;;
  if ToBoolean sessionId then
    (if ToString_throws sessionId then throw TypeError else ret tt) ;;
    logger_debug ;;
    call_onSessionHook (onSessionHook o) sessionId data
  else logger_debug.

(** The [try] block of a route from the end of its [for await] loop on. *)
Definition after_body (o : HookServerOptions) (h : hook)
    (chunks : list Buffer) : M unit :=
  match h with
  | UserPromptSubmit =>
      logger_debug ;;
      call_optional (onThinkingStart o) ThinkingStart ;;
      writeHead_end 200 text_plain (str "ok")
  | Stop =>
      logger_debug ;;
      call_optional (onThinkingStop o) ThinkingStop ;;
      writeHead_end 200 text_plain (str "ok")
  | SessionStart =>
      clearTimeout ;;
      session_hook o chunks ;;
      writeHead_end 200 text_plain (str "ok")
  end.

(** The [catch] block of a route. *)
Definition on_error (h : hook) (_ : exn) : M unit :=
  match h with SessionStart => clearTimeout | _ => ret tt end ;;
  logger_debug ;;
  sent <- headersSent ;;
  if sent then ret tt else writeHead_end 500 [] (str "error").

(** The callback given to [setTimeout]. *)
Definition on_timeout : M unit :=
  sent <- headersSent ;;
  if sent then ret tt
  else logger_debug ;; writeHead_end 408 [] (str "timeout").

(** What happens to a request once the listener has been called: chunks of
    the body arrive, the body ends or the stream fails, and, five seconds
    after the call, the timer is due. *)
Inductive event :=
| Data (chunk : Buffer)
| End
| Fail (e : exn)
| Timeout.

(** The listener is either suspended in its [for await] loop, holding the
    array [chunks], or has returned. *)
Inductive phase :=
| Reading (chunks : list Buffer)
| Returned.

(** One call of the listener: its world, where it stands, and the errors
    that escaped it (as a rejected promise, or out of the timer callback). *)
Record call := Call {
  world_of : world;
  phase_of : phase;
  uncaught : list exn
}.

(** Code running with nothing around it to catch. *)
Definition run (m : M unit) (ph : phase) (c : call) : call :=
  match m (world_of c) with
  | (Normal _, w) => Call w ph (uncaught c)
  | (Throw e, w) => Call w ph (uncaught c ++ [e])
  end.

(** The listener from its call to its first suspension. *)
Definition start (r : option hook) : call :=
  match r with
  | Some SessionStart => Call (World [] Armed) (Reading []) []
  | Some _ => Call (World [] NoTimer) (Reading []) []
  | None =>
      run (writeHead_end 404 [] (str "not found")) Returned
          (Call (World [] NoTimer) Returned [])
  end.

(** One event.  The timer callback runs when the timer is still armed,
    wherever the listener stands; the stream is heard only while the listener
    is in its loop, and only the session route keeps what it reads. *)
Definition step (o : HookServerOptions) (r : option hook) (c : call)
    (ev : event) : call :=
  match ev with
  | Timeout =>
      match timer (world_of c) with
      | Armed =>
          run on_timeout (phase_of c)
              (Call (World (trace (world_of c)) Fired) (phase_of c) (uncaught c))
      | _ => c
      end
  | Data chunk =>
      match r, phase_of c with
      | Some SessionStart, Reading chunks =>
          Call (world_of c) (Reading (chunks ++ [chunk])) (uncaught c)
      | _, _ => c
      end
  | End =>
      match r, phase_of c with
      | Some h, Reading chunks =>
          run (try_catch (after_body o h chunks) (on_error h)) Returned c
      | _, _ => c
      end
  | Fail e =>
      match r, phase_of c with
      | Some h, Reading _ =>
          run (try_catch (throw e) (on_error h)) Returned c
      | _, _ => c
      end
  end.

(** A request: its method and target, and what happens to it. *)
Record request := Request {
  method : jsstring;
  url : jsstring;
  events : list event
}.

(** The request listener that [startHookServer] gives to [createServer],
    called on [q] and carried through the events of [q]. *)
Definition handle (o : HookServerOptions) (q : request) : call :=
  fold_left (step o (route (method q) (url q))) (events q)
            (start (route (method q) (url q))).

(** What the request did to the outside, in order. *)
Definition effects (o : HookServerOptions) (q : request) : list effect :=
  trace (world_of (handle o q)).

(** The responses of a trace, and its calls of callbacks. *)
Definition responses (t : list effect) : list effect := filter is_response t.

Definition calls (t : list effect) : list effect := filter is_call t.

(** The server over a sequence of requests.  An error that escapes a
    listener is an unhandled rejection, which ends the process: the requests
    after it go unanswered. *)
Fixpoint serve (o : HookServerOptions) (qs : list request)
  : list (option (list effect)) :=
  match qs with
  | [] => []
  | q :: qs' =>
      let c := handle o q in
      Some (trace (world_of c))
      :: match uncaught c with
         | [] => serve o qs'
         | _ :: _ => map (fun _ => None) qs'
         end
  end.

End HookServer.

(** * Event sequences *)

Module Events.
Import JS HookServer.

(** The body is still arriving: neither its end nor a failure so far. *)
Definition draining (evs : list event) : bool :=
  forallb (fun ev => match ev with
                     | Data _ | Timeout => true
                     | End | Fail _ => false
                     end) evs.

(** The timer came due among [evs]. *)
Definition timed_out (evs : list event) : bool :=
  existsb (fun ev => match ev with Timeout => true | _ => false end) evs.

(** The chunks delivered by [evs], in order. *)
Fixpoint received (evs : list event) : list Buffer :=
  match evs with
  | [] => []
  | Data c :: evs' => c :: received evs'
  | _ :: evs' => received evs'
  end.


Definition POST (u : string) (evs : list event) : request :=
  Request (str "POST") (str u) evs.

Definition session_start : list event -> request := POST "/hook/session-start".
Definition user_prompt_submit : list event -> request :=
  POST "/hook/user-prompt-submit".
Definition stop : list event -> request := POST "/hook/stop".

(** A body that arrives whole, in chunks, before the timer is due. *)
Definition in_time (chunks : list Buffer) : list event :=
  map Data chunks ++ [End].

Definition ok : jsstring := str "ok".
Definition R200 : effect := Respond 200 text_plain ok.
Definition R404 : effect := Respond 404 [] (str "not found").
Definition R408 : effect := Respond 408 [] (str "timeout").
Definition R500 : effect := Respond 500 [] (str "error").

(** The three pairs of method and target the listener tests for. *)
Definition recognized : list (jsstring * jsstring) :=
  [(str "POST", str "/hook/user-prompt-submit");
   (str "POST", str "/hook/stop");
   (str "POST", str "/hook/session-start")].

(** Callbacks that return, and callbacks that throw. *)
Definition returning : HookServerOptions :=
  Options (Some (fun _ _ => Normal tt))
          (Some (fun _ => Normal tt))
          (Some (fun _ => Normal tt)).

Definition throwing : HookServerOptions :=
  Options (Some (fun _ _ => Throw (Thrown 0)))
          (Some (fun _ => Throw (Thrown 1)))
          (Some (fun _ => Throw (Thrown 2))).

Definition absent : HookServerOptions := Options None None None.

(** The listener has returned and the timer is off. *)
Definition quiet (c : call) : Prop :=
  phase_of c = Returned /\ timer (world_of c) <> Armed.

(** The session route while the body arrives: the timer is armed and nothing
    has been written, or it came due and wrote its 408. *)
Definition session_reading (fired : bool) (chunks : list Buffer) : call :=
  if fired then Call (World [R408] Fired) (Reading chunks) []
  else Call (World [] Armed) (Reading chunks) [].

(** The two thinking routes while the body arrives: the chunks are dropped
    and there is no timer. *)
Definition thinking_reading : call := Call (World [] NoTimer) (Reading []) [].

(** The responses written so far. *)
Definition sent (w : world) : list effect := responses (trace w).

(** From [w] to [w'] the responses stay as they are, or a first one is
    written, with one of the three statuses of the routes ... *)
Definition grows (w w' : world) : Prop :=
  sent w' = sent w \/
  (sent w = [] /\
   exists status headers body,
     sent w' = [Respond status headers body] /\ In status [200; 408; 500]).

(** ... and a timer that is off stays off. *)
Definition extends (w w' : world) : Prop :=
  grows w w' /\ (timer w <> Armed -> timer w' <> Armed).

(** [m] does no more than that to the responses. *)
Definition tame {A} (m : M A) : Prop := forall w, extends w (snd (m w)).

(** [m] returns, whatever the world. *)
Definition returns {A} (m : M A) : Prop :=
  forall w, exists a, fst (m w) = Normal a.

(** Where the listener of route [h] stands after the events [pre] of a
    body still arriving. *)
Definition reading (h : hook) (pre : list event) : call :=
  match h with
  | SessionStart => session_reading (timed_out pre) (received pre)
  | _ => thinking_reading
  end.

(** At the end of the body [chunks], route [h] makes the call [call] of a
    registered callback, and the callback throws [e]. *)
Definition callback_throws (o : HookServerOptions) (h : hook)
    (chunks : list Buffer) (call : effect) (e : exn) : Prop :=
  match h with
  | UserPromptSubmit =>
      call = ThinkingStart /\
      exists f, onThinkingStart o = Some f /\ f tt = Throw e
  | Stop =>
      call = ThinkingStop /\
      exists f, onThinkingStop o = Some f /\ f tt = Throw e
  | SessionStart =>
      let data := parse_data (toString_utf8 (Buffer_concat chunks)) in
      exists sessionId f,
        call = SessionHook sessionId data /\
        (forall w, sessionId_of data w = (Normal sessionId, w)) /\
        ToBoolean sessionId = true /\
        ToString_throws sessionId = false /\
        onSessionHook o = Some f /\
        f sessionId data = Throw e
  end.

End Events.

(** * The permission mode selector *)

Module Selector.
Import JS.

Inductive PermissionMode := default | acceptEdits | bypassPermissions | plan.

Record entry := Entry {
  mode : PermissionMode;
  label : string;
  description : string
}.

Definition options : list entry :=
  [Entry default "Default" "Normal permission checks";
   Entry acceptEdits "Accept Edits" "Auto-accept file edits";
   Entry bypassPermissions "Bypass Permissions" "--dangerously-skip-permissions";
   Entry plan "Plan" "Plan mode only"].

(** [l[i]] for an integer [i]: [undefined] outside the array. *)
Definition at_index {A} (l : list A) (i : Z) : option A :=
  if (i <? 0)%Z then None else nth_error l (Z.to_nat i).

(** The flags of a key press that the listener reads. *)
Record Key := MkKey {
  upArrow : bool;
  downArrow : bool;
  return_ : bool;
  escape : bool;
  ctrl : bool
}.

(** The calls of the two callbacks of the props. *)
Inductive callback :=
| onSelect (m : PermissionMode)
| onCancel.

(** The component between two events.  [selectedIndex] is the state React
    holds; [rendered] is its value in the last render, which is the one the
    rows show and the one the listener registered by that render reads;
    [called] lists the calls of the two props made so far, which say nothing
    of how the parent's functions end; [thrown] lists the errors of the
    listener's own code, a read of [mode] on [undefined]. *)
Record component := Component {
  selectedIndex : Z;
  rendered : Z;
  called : list callback;
  thrown : list exn
}.

(** [useState(2)] and the first render. *)
Definition mount : component := Component 2 2 [] [].

(** [setSelectedIndex(f)] with an updater: it is applied to the state React
    holds, whatever the last render showed. *)
Definition setSelectedIndex (f : Z -> Z) (c : component) : component :=
  Component (f (selectedIndex c)) (rendered c) (called c) (thrown c).

(** A call of one of the two props.  It is the last statement of its branch
    of the listener, so the component is left the same however the parent's
    function ends; what that function throws goes to the caller of the
    listener and is not recorded here. *)
Definition call (k : callback) (c : component) : component :=
  Component (selectedIndex c) (rendered c) (called c ++ [k]) (thrown c).

Definition raise (e : exn) (c : component) : component :=
  Component (selectedIndex c) (rendered c) (called c) (thrown c ++ [e]).

(** The listener given to [useInput]. *)
Definition on_input (input : jsstring) (key : Key) (c : component)
  : component :=
  if upArrow key then
    setSelectedIndex (fun prev => Z.max 0 (prev - 1)) c
  else if downArrow key then
    setSelectedIndex
      (fun prev => Z.min (Z.of_nat (List.length options) - 1) (prev + 1)) c
  else if return_ key then
    match at_index options (rendered c) with
    | Some option => call (onSelect (mode option)) c
    | None => raise TypeError c
    end
  else if escape key || (ctrl key && str_eqb input (str "c")) then
    call onCancel c
  else if str_eqb input (str "1") then
    call (onSelect default) (setSelectedIndex (fun _ => 0%Z) c)
  else if str_eqb input (str "2") then
    call (onSelect acceptEdits) (setSelectedIndex (fun _ => 1%Z) c)
  else if str_eqb input (str "3") then
    call (onSelect bypassPermissions) (setSelectedIndex (fun _ => 2%Z) c)
  else if str_eqb input (str "4") then
    call (onSelect plan) (setSelectedIndex (fun _ => 3%Z) c)
  else c.

(** One row of the list, as the render builds it. *)
Record row := Row {
  isSelected : bool;
  color : string;
  marker : jsstring;
  number : Z;
  row_label : string;
  row_description : string
}.

(** [options.map((option, index) => ...)] *)
Fixpoint map_index {A B} (f : A -> Z -> B) (l : list A) (index : Z) : list B :=
  match l with
  | [] => []
  | a :: l' => f a index :: map_index f l' (index + 1)%Z
  end.

(** The rows of a render in which [selectedIndex] is [shown]; the marker of
    the selected row is U+203A and a space. *)
Definition rows (shown : Z) : list row :=
  map_index
    (fun option index =>
       let isSelected := (shown =? index)%Z in
       Row isSelected
           (if isSelected then "cyan" else "gray")
           (if isSelected then [0x203A; 32]%N else [32; 32]%N)
           (index + 1)
           (label option)
           (description option))
    options 0%Z.

(** What happens to the component: a key press reaches the listener of the
    last render, or React renders again. *)
Inductive event :=
| Input (input : jsstring) (key : Key)
| Render.

Definition step (c : component) (ev : event) : component :=
  match ev with
  | Input input key => on_input input key c
  | Render => Component (selectedIndex c) (selectedIndex c) (called c) (thrown c)
  end.

Definition run (evs : list event) : component := fold_left step evs mount.

(** The keys of the help line. *)
Definition key_up : event := Input [] (MkKey true false false false false).
Definition key_down : event := Input [] (MkKey false true false false false).
Definition key_enter : event :=
  Input [13]%N (MkKey false false true false false).

(** The index React holds and the index of the last render are rows of the
    list, and the listener has never read [mode] on [undefined]. *)
Definition valid (c : component) : Prop :=
  (0 <= selectedIndex c <= 3)%Z /\ (0 <= rendered c <= 3)%Z /\ thrown c = [].

(** A key press with none of the flags the listener tests first. *)
Definition plain (key : Key) : Prop :=
  upArrow key = false /\ downArrow key = false /\ return_ key = false
  /\ escape key = false.

End Selector.

(** * Inputs and traces, for the facts beyond the routes *)

Module More.
Import JS HookServer Events.

(** Standard input has ended among [input]. *)
Definition input_ended (input : list Forwarder.stdin_event) : bool :=
  existsb (fun ev => match ev with
                     | Forwarder.Eof => true
                     | Forwarder.Chunk _ => false
                     end) input.

(** The chunks standard input delivered before it ended. *)
Fixpoint before_end (input : list Forwarder.stdin_event) : list Buffer :=
  match input with
  | Forwarder.Chunk c :: input' => c :: before_end input'
  | Forwarder.Eof :: _ | [] => []
  end.

(** [eventType] is the event type the arguments name: the second argument,
    and [session-start] when that argument is omitted or empty. *)
Definition named_event (argv : list jsstring) (eventType : jsstring) : Prop :=
  (nth_error argv 3 = Some eventType /\ eventType <> [])
  \/ ((nth_error argv 3 = None \/ nth_error argv 3 = Some [])
      /\ eventType = str "session-start").

(** The POST of [body] to [/hook/<eventType>] on the port [p] of the
    loopback address, ended with [body]. *)
Definition post_request (p : Z) (eventType : jsstring) (body : Buffer)
  : Forwarder.effect :=
  Forwarder.HttpRequest
    (Forwarder.RequestOptions
       (str "127.0.0.1") p (str "POST") (str "/hook/" ++ eventType)
       [(str "Content-Type", Forwarder.HText (str "application/json"));
        (str "Content-Length", Forwarder.HNumber (List.length body))])
    body.



(** The callback that belongs to a route. *)
Definition callback_of (h : hook) (e : effect) : bool :=
  match h, e with
  | UserPromptSubmit, ThinkingStart => true
  | Stop, ThinkingStop => true
  | SessionStart, SessionHook _ _ => true
  | _, _ => false
  end.

(** The status of a response. *)
Definition status_of (e : effect) : option nat :=
  match e with
  | Respond status _ _ => Some status
  | _ => None
  end.

(** The statuses of the responses of a trace. *)
Definition statuses (t : list effect) : list nat :=
  flat_map (fun e => match status_of e with Some s => [s] | None => [] end) t.

(** The call [e] was made on a registered callback, which returned. *)
Definition returned (o : HookServerOptions) (e : effect) : Prop :=
  match e with
  | ThinkingStart => exists f, onThinkingStart o = Some f /\ f tt = Normal tt
  | ThinkingStop => exists f, onThinkingStop o = Some f /\ f tt = Normal tt
  | SessionHook sessionId data =>
      exists f, onSessionHook o = Some f /\ f sessionId data = Normal tt
  | Respond _ _ _ => True
  end.

(** An event that ends the reading of the body. *)
Definition closes (ev : event) : Prop := ev = End \/ exists e, ev = Fail e.

(** The timer has written its 408 among the events [pre] of a body still
    arriving: only the session route has a timer. *)
Definition fired (h : hook) (pre : list event) : bool :=
  match h with
  | SessionStart => timed_out pre
  | _ => false
  end.

End More.

Import JS HookServer Events.

Ltac case_if :=
  match goal with
  | |- context [if ?b then _ else _] => destruct b eqn:?
  end.

(** * Strings *)

Lemma str_eqb_eq (a b : jsstring) : str_eqb a b = true <-> a = b.
Proof.
  revert b; induction a as [|x a IH]; intros [|y b]; simpl;
    try (split; congruence).
  rewrite andb_true_iff, N.eqb_eq, IH. split.
  - intros [-> ->]; reflexivity.
  - intros H; injection H as -> ->; auto.
Qed.

Lemma str_eqb_refl (a : jsstring) : str_eqb a a = true.
Proof. apply str_eqb_eq; reflexivity. Qed.

(** * The listener, event by event *)

Section Listener.

Variable o : HookServerOptions.

Lemma quiet_step r c ev : quiet c -> step o r c ev = c.
Proof.
  intros [Hp Ht]. destruct ev; unfold step; rewrite ?Hp.
  - destruct r as [[]|]; reflexivity.
  - destruct r; reflexivity.
  - destruct r; reflexivity.
  - destruct (timer (world_of c)); congruence.
Qed.

Lemma quiet_stable r evs c : quiet c -> fold_left (step o r) evs c = c.
Proof.
  intros Hq. induction evs as [|ev evs IH]; simpl; [reflexivity|].
  rewrite quiet_step by assumption. exact IH.
Qed.

(** A request that matches no route is answered at once; the events of its
    stream are never looked at. *)
Lemma unrouted evs :
  fold_left (step o None) evs (start None) = Call (World [R404] NoTimer) Returned [].
Proof.
  apply quiet_stable. split; [reflexivity|discriminate].
Qed.

Lemma session_drains pre : draining pre = true -> forall fired chunks,
  fold_left (step o (Some SessionStart)) pre (session_reading fired chunks)
  = session_reading (fired || timed_out pre) (chunks ++ received pre).
Proof.
  induction pre as [|ev pre IH]; simpl; intros Hd fired chunks.
  - rewrite orb_false_r, app_nil_r; reflexivity.
  - apply andb_true_iff in Hd as [Hev Hd]. destruct ev; try discriminate.
    + replace (step o (Some SessionStart) (session_reading fired chunks) (Data chunk))
        with (session_reading fired (chunks ++ [chunk]))
        by (destruct fired; reflexivity).
      rewrite IH by assumption. rewrite <- app_assoc. reflexivity.
    + replace (step o (Some SessionStart) (session_reading fired chunks) Timeout)
        with (session_reading true chunks)
        by (destruct fired; reflexivity).
      rewrite IH by assumption. rewrite orb_true_r. reflexivity.
Qed.

Lemma thinking_drains h pre : h <> SessionStart -> draining pre = true ->
  fold_left (step o (Some h)) pre thinking_reading = thinking_reading.
Proof.
  intros Hh. induction pre as [|ev pre IH]; simpl; intros Hd; [reflexivity|].
  apply andb_true_iff in Hd as [Hev Hd].
  destruct ev; try discriminate; destruct h; try congruence; simpl; auto.
Qed.

Lemma draining_Data chunks : draining (map Data chunks) = true.
Proof. induction chunks; simpl; auto. Qed.

Lemma timed_out_Data chunks : timed_out (map Data chunks) = false.
Proof. induction chunks; simpl; auto. Qed.

Lemma received_Data chunks : received (map Data chunks) = chunks.
Proof. induction chunks; simpl; congruence. Qed.

End Listener.

(** * What synchronous code does to the responses *)

Lemma grows_refl w : grows w w.
Proof. left; reflexivity. Qed.

Lemma grows_trans w1 w2 w3 : grows w1 w2 -> grows w2 w3 -> grows w1 w3.
Proof.
  intros [H12|[H1 H12]] [H23|[H2 H23]].
  - left; congruence.
  - right; split; [congruence|exact H23].
  - right; split; [exact H1|]. rewrite H23; exact H12.
  - destruct H12 as (s & h & b & H12 & _). rewrite H12 in H2; discriminate.
Qed.

Lemma extends_refl w : extends w w.
Proof. split; [apply grows_refl|auto]. Qed.

Lemma extends_trans w1 w2 w3 : extends w1 w2 -> extends w2 w3 -> extends w1 w3.
Proof.
  intros [G12 T12] [G23 T23]. split; [eapply grows_trans; eassumption|auto].
Qed.

Lemma existsb_responses t : existsb is_response t = false <-> responses t = [].
Proof.
  unfold responses. induction t as [|e t IH]; simpl; [tauto|].
  destruct (is_response e); simpl; [split; discriminate|exact IH].
Qed.

Lemma responses_app t t' : responses (t ++ t') = responses t ++ responses t'.
Proof. apply filter_app. Qed.

Lemma calls_app t t' : calls (t ++ t') = calls t ++ calls t'.
Proof. apply filter_app. Qed.

Lemma tame_ret A (a : A) : tame (ret a).
Proof. intros w; apply extends_refl. Qed.

Lemma tame_throw A e : tame (@throw A e).
Proof. intros w; apply extends_refl. Qed.

Lemma tame_lift A (c : completion A) : tame (lift c).
Proof. intros w; apply extends_refl. Qed.

Lemma tame_bind A B (m : M A) (k : A -> M B) :
  tame m -> (forall a, tame (k a)) -> tame (bind m k).
Proof.
  intros Hm Hk w. unfold bind. specialize (Hm w).
  destruct (m w) as [[a|e] w']; simpl in *; [|exact Hm].
  eapply extends_trans; [exact Hm|apply Hk].
Qed.

Lemma tame_try_catch body handler :
  tame body -> (forall e, tame (handler e)) -> tame (try_catch body handler).
Proof.
  intros Hb Hh w. unfold try_catch. specialize (Hb w).
  destruct (body w) as [[a|e] w']; simpl in *; [exact Hb|].
  eapply extends_trans; [exact Hb|apply Hh].
Qed.

Lemma tame_emit_call e : is_response e = false -> tame (emit e).
Proof.
  intros He w. split; [left|auto]. unfold sent, emit; simpl.
  rewrite responses_app. unfold responses at 2; simpl. rewrite He.
  apply app_nil_r.
Qed.

Lemma tame_headersSent : tame headersSent.
Proof. intros w; apply extends_refl. Qed.

Lemma tame_clearTimeout : tame clearTimeout.
Proof.
  intros w. unfold clearTimeout; simpl.
  destruct (timer w) eqn:E; try apply extends_refl.
  split; [left; reflexivity|simpl; discriminate].
Qed.

Lemma tame_writeHead_end status headers body :
  In status [200; 408; 500] -> tame (writeHead_end status headers body).
Proof.
  intros Hs w. unfold writeHead_end, bind, headersSent.
  destruct (existsb is_response (trace w)) eqn:E; simpl.
  - apply extends_refl.
  - apply existsb_responses in E. split; [right|auto]. split; [exact E|].
    exists status, headers, body. split; [|exact Hs].
    unfold sent; simpl. rewrite responses_app, E. reflexivity.
Qed.

Lemma tame_call_optional cb e : is_response e = false -> tame (call_optional cb e).
Proof.
  intros He. destruct cb; simpl; [|apply tame_ret].
  apply tame_bind; [apply tame_emit_call; exact He|intros; apply tame_lift].
Qed.

Lemma tame_call_onSessionHook cb sessionId data :
  tame (call_onSessionHook cb sessionId data).
Proof.
  destruct cb; simpl; [|apply tame_throw].
  apply tame_bind; [apply tame_emit_call; reflexivity|intros; apply tame_lift].
Qed.

Lemma tame_sessionId_of data : tame (sessionId_of data).
Proof.
  apply tame_bind; [apply tame_lift|]. intros a.
  destruct (ToBoolean a); [apply tame_ret|apply tame_lift].
Qed.

Lemma tame_logger_debug : tame logger_debug.
Proof. apply tame_ret. Qed.

Create HintDb tame.
#[local] Hint Resolve tame_ret tame_throw tame_lift tame_headersSent
  tame_clearTimeout tame_call_onSessionHook tame_sessionId_of
  tame_logger_debug : tame.

(** Splits a computation at its binds and branches down to the primitives. *)
Ltac tame :=
  repeat first
    [ solve [auto with tame]
    | apply tame_writeHead_end; simpl; solve [auto]
    | apply tame_call_optional; reflexivity
    | apply tame_bind; [|intros ?]
    | match goal with
      | |- tame (if ?b then _ else _) => destruct b
      | |- tame (match ?h with _ => _ end) => destruct h
      end ].

Lemma tame_session_hook o chunks : tame (session_hook o chunks).
Proof. unfold session_hook. tame. Qed.

Lemma tame_after_body o h chunks : tame (after_body o h chunks).
Proof.
  destruct h; simpl; tame.
Qed.

Lemma tame_on_error h e : tame (on_error h e).
Proof. unfold on_error. tame. Qed.

Lemma tame_on_timeout : tame on_timeout.
Proof. unfold on_timeout. tame. Qed.

(** The two pieces of code that run with nothing around them never throw:
    each tests [headersSent] before it writes. *)
Lemma writes_when_unsent status headers body w :
  existsb is_response (trace w) = false ->
  writeHead_end status headers body w
  = (Normal tt, World (trace w ++ [Respond status headers body]) (timer w)).
Proof.
  intros E. unfold writeHead_end, bind, headersSent. rewrite E. reflexivity.
Qed.

Lemma throws_when_sent status headers body w :
  existsb is_response (trace w) = true ->
  writeHead_end status headers body w = (Throw ERR_HTTP_HEADERS_SENT, w).
Proof.
  intros E. unfold writeHead_end, bind, headersSent. rewrite E. reflexivity.
Qed.

Lemma on_error_returns h e : returns (on_error h e).
Proof.
  intros w. unfold on_error, bind.
  set (w1 := snd ((match h with SessionStart => clearTimeout | _ => ret tt end) w)).
  assert (H1 : (match h with SessionStart => clearTimeout | _ => ret tt end) w
               = (Normal tt, w1)) by (destruct h; reflexivity).
  rewrite H1. unfold logger_debug, ret, headersSent.
  destruct (existsb is_response (trace w1)) eqn:E.
  - exists tt; reflexivity.
  - rewrite writes_when_unsent by exact E. exists tt; reflexivity.
Qed.

Lemma on_timeout_returns : returns on_timeout.
Proof.
  intros w. unfold on_timeout, bind, logger_debug, ret, headersSent.
  destruct (existsb is_response (trace w)) eqn:E.
  - exists tt; reflexivity.
  - rewrite writes_when_unsent by exact E. exists tt; reflexivity.
Qed.

Lemma try_catch_returns body h : returns (try_catch body (on_error h)).
Proof.
  intros w. unfold try_catch. destruct (body w) as [[[]|e] w'].
  - exists tt; reflexivity.
  - apply on_error_returns.
Qed.

(** * Invariants of a call of the listener *)

Lemma run_returns m ph c : returns m ->
  run m ph c = Call (snd (m (world_of c))) ph (uncaught c).
Proof.
  intros Hm. unfold run. destruct (Hm (world_of c)) as [a Ha].
  destruct (m (world_of c)) as [[a'|e] w]; simpl in *; [reflexivity|discriminate].
Qed.

Lemma step_uncaught o r c ev : uncaught (step o r c ev) = uncaught c.
Proof.
  destruct ev; unfold step.
  - destruct r as [[]|], (phase_of c); reflexivity.
  - destruct r, (phase_of c); try reflexivity.
    rewrite run_returns by apply try_catch_returns. reflexivity.
  - destruct r, (phase_of c); try reflexivity.
    rewrite run_returns by apply try_catch_returns. reflexivity.
  - destruct (timer (world_of c)); try reflexivity.
    rewrite run_returns by apply on_timeout_returns. reflexivity.
Qed.

Lemma step_extends o r c ev : extends (world_of c) (world_of (step o r c ev)).
Proof.
  destruct ev; unfold step.
  - destruct r as [[]|], (phase_of c); apply extends_refl.
  - destruct r as [h|], (phase_of c); try apply extends_refl.
    rewrite run_returns by apply try_catch_returns. simpl.
    apply tame_try_catch; [apply tame_after_body|apply tame_on_error].
  - destruct r as [h|], (phase_of c); try apply extends_refl.
    rewrite run_returns by apply try_catch_returns. simpl.
    apply tame_try_catch; [apply tame_throw|apply tame_on_error].
  - destruct (timer (world_of c)); try apply extends_refl.
    rewrite run_returns by apply on_timeout_returns. simpl.
    eapply extends_trans; [|apply tame_on_timeout].
    split; [left; reflexivity|simpl; discriminate].
Qed.

Lemma fold_uncaught o r evs c :
  uncaught (fold_left (step o r) evs c) = uncaught c.
Proof.
  revert c; induction evs as [|ev evs IH]; intros c; simpl; [reflexivity|].
  rewrite IH. apply step_uncaught.
Qed.

Lemma fold_extends o r evs c :
  extends (world_of c) (world_of (fold_left (step o r) evs c)).
Proof.
  revert c; induction evs as [|ev evs IH]; intros c; simpl; [apply extends_refl|].
  eapply extends_trans; [apply step_extends|apply IH].
Qed.

(** No error escapes the listener or its timer callback. *)
Lemma handle_uncaught o q : uncaught (handle o q) = [].
Proof.
  unfold handle. rewrite fold_uncaught.
  destruct (route (method q) (url q)) as [[]|]; reflexivity.
Qed.

(** A routed request has no response, or one with status 200, 408 or 500. *)
Lemma routed_responses o q h : route (method q) (url q) = Some h ->
  responses (effects o q) = [] \/
  exists status headers body,
    responses (effects o q) = [Respond status headers body]
    /\ In status [200; 408; 500].
Proof.
  intros Hr. unfold effects, handle. rewrite Hr.
  pose proof (fold_extends o (Some h) (events q) (start (Some h))) as H.
  assert (H0 : sent (world_of (start (Some h))) = []) by (destruct h; reflexivity).
  destruct H as [H _]. unfold grows in H. rewrite H0 in H.
  destruct H as [H|[_ H]]; [left|right]; exact H.
Qed.

(** The routes, by the pairs they answer to. *)
Lemma route_recognized m u : route m u <> None <-> In (m, u) recognized.
Proof.
  unfold route, recognized. simpl. split.
  - destruct (str_eqb m (str "POST")) eqn:Hm; simpl; [|congruence].
    apply str_eqb_eq in Hm; subst m.
    destruct (str_eqb u (str "/hook/user-prompt-submit")) eqn:H1;
      [apply str_eqb_eq in H1; subst; auto|].
    destruct (str_eqb u (str "/hook/stop")) eqn:H2;
      [apply str_eqb_eq in H2; subst; auto|].
    destruct (str_eqb u (str "/hook/session-start")) eqn:H3;
      [apply str_eqb_eq in H3; subst; auto 6|congruence].
  - intros [H|[H|[H|[]]]]; injection H as <- <-; vm_compute; discriminate.
Qed.

Arguments str : simpl never.
Arguments JSON_parse : simpl never.
Arguments toString_utf8 : simpl never.
Arguments Buffer_concat : simpl never.
Arguments sessionId_of : simpl never.

(** Runs the listener's code on a world that is known. *)
Ltac exec :=
  unfold run, try_catch, after_body, session_hook, on_error, on_timeout,
    call_optional, call_onSessionHook, logger_debug, bind, lift, ret, throw;
  simpl.

(** The timer is off once [clearTimeout] has run. *)
Lemma clearTimeout_disarms A (k : unit -> M A) w :
  (forall a, tame (k a)) -> timer (snd (bind clearTimeout k w)) <> Armed.
Proof.
  intros Hk. unfold bind, clearTimeout.
  destruct (timer w) eqn:E; apply Hk; simpl; congruence.
Qed.

Lemma try_block_disarms o h chunks w :
  h = SessionStart \/ timer w <> Armed ->
  timer (snd (try_catch (after_body o h chunks) (on_error h) w)) <> Armed.
Proof.
  intros [->|Hw].
  - unfold try_catch.
    assert (Hb : timer (snd (after_body o SessionStart chunks w)) <> Armed).
    { apply clearTimeout_disarms. intros _. tame. }
    destruct (after_body o SessionStart chunks w) as [[a|e] w1]; simpl in *.
    + exact Hb.
    + apply (tame_on_error SessionStart e w1). exact Hb.
  - assert (H : tame (try_catch (after_body o h chunks) (on_error h)))
      by (apply tame_try_catch; [apply tame_after_body|apply tame_on_error]).
    apply H; exact Hw.
Qed.

Lemma catch_disarms h e w :
  h = SessionStart \/ timer w <> Armed ->
  timer (snd (try_catch (throw e) (on_error h) w)) <> Armed.
Proof.
  intros [->|Hw].
  - unfold try_catch, throw. unfold on_error.
    apply clearTimeout_disarms. intros _. tame.
  - assert (H : tame (try_catch (throw e) (on_error h)))
      by (apply tame_try_catch; [apply tame_throw|apply tame_on_error]).
    apply H; exact Hw.
Qed.

(** The end of the body, or its failure, leaves the listener returned and
    the timer off. *)
Lemma End_quiet o h c chunks :
  phase_of c = Reading chunks ->
  h = SessionStart \/ timer (world_of c) <> Armed ->
  quiet (step o (Some h) c End).
Proof.
  intros Hp Ht. unfold step. rewrite Hp.
  rewrite run_returns by apply try_catch_returns.
  split; [reflexivity|]. simpl. apply try_block_disarms; exact Ht.
Qed.

Lemma Fail_quiet o h c chunks e :
  phase_of c = Reading chunks ->
  h = SessionStart \/ timer (world_of c) <> Armed ->
  quiet (step o (Some h) c (Fail e)).
Proof.
  intros Hp Ht. unfold step. rewrite Hp.
  rewrite run_returns by apply try_catch_returns.
  split; [reflexivity|]. simpl. apply catch_disarms; exact Ht.
Qed.

(** While the body arrives, the listener stands at [reading]. *)
Lemma drained o m u h pre :
  route m u = Some h -> draining pre = true ->
  handle o (Request m u pre) = reading h pre.
Proof.
  intros Hr Hd. unfold handle; simpl. rewrite Hr.
  destruct h; try (apply thinking_drains; [discriminate|exact Hd]).
  change (start (Some SessionStart)) with (session_reading false []).
  rewrite session_drains by exact Hd. reflexivity.
Qed.

Lemma reading_phase h pre :
  exists chunks, phase_of (reading h pre) = Reading chunks.
Proof.
  destruct h; simpl; try (eexists; reflexivity).
  unfold session_reading. destruct (timed_out pre); eexists; reflexivity.
Qed.

Lemma reading_timer h pre :
  h = SessionStart \/ timer (world_of (reading h pre)) <> Armed.
Proof. destruct h; auto; right; simpl; discriminate. Qed.

(** The end of the body is heard once, where the listener stands then, and
    nothing is heard after it; the same for a failure of the stream. *)
Lemma ended o m u h pre later :
  route m u = Some h -> draining pre = true ->
  handle o (Request m u (pre ++ End :: later))
  = step o (Some h) (reading h pre) End.
Proof.
  intros Hr Hd. pose proof (drained o m u pre Hr Hd) as H.
  unfold handle in *; simpl in *. rewrite Hr in *.
  rewrite fold_left_app, H. simpl fold_left.
  apply quiet_stable. destruct (reading_phase h pre) as [chunks Hp].
  eapply End_quiet; [exact Hp|apply reading_timer].
Qed.

Lemma failed o m u h pre e later :
  route m u = Some h -> draining pre = true ->
  handle o (Request m u (pre ++ Fail e :: later))
  = step o (Some h) (reading h pre) (Fail e).
Proof.
  intros Hr Hd. pose proof (drained o m u pre Hr Hd) as H.
  unfold handle in *; simpl in *. rewrite Hr in *.
  rewrite fold_left_app, H. simpl fold_left.
  apply quiet_stable. destruct (reading_phase h pre) as [chunks Hp].
  eapply (Fail_quiet o); [exact Hp|apply reading_timer].
Qed.

(** A body that arrives whole before the timer is due: the listener runs
    its [try] block once, on all the chunks. *)
Lemma session_in_time o chunks later :
  handle o (session_start (map Data chunks ++ End :: later))
  = step o (Some SessionStart) (session_reading false chunks) End.
Proof.
  unfold session_start, POST.
  rewrite (@ended o _ _ SessionStart) by (reflexivity || apply draining_Data).
  simpl. rewrite timed_out_Data, received_Data. reflexivity.
Qed.

(** * The session route at the end of the body *)

(** [o.k], or [undefined] when [o] has no property [k]. *)
Lemma Get_object o k :
  Get (JObject o) k
  = Normal (match lookup k o with Some x => x | None => JUndefined end).
Proof. reflexivity. Qed.

Lemma sessionId_of_object o w :
  sessionId_of (JObject o) w
  = (Normal (or_else
               (match lookup (str "session_id") o with
                | Some x => x | None => JUndefined end)
               (match lookup (str "sessionId") o with
                | Some x => x | None => JUndefined end)), w).
Proof.
  unfold sessionId_of, bind, lift, or_else. rewrite !Get_object.
  destruct (ToBoolean _); reflexivity.
Qed.

(** The session route on a body that arrived in time, by what the
    identifier turns out to be. *)
Lemma session_dropped o chunks later sessionId :
  (forall w, sessionId_of (parse_data (toString_utf8 (Buffer_concat chunks))) w
             = (Normal sessionId, w)) ->
  ToBoolean sessionId = false ->
  handle o (session_start (map Data chunks ++ End :: later))
  = Call (World [R200] Cleared) Returned [].
Proof.
  intros Hid Hb. rewrite session_in_time.
  unfold step, session_reading; simpl. exec.
  rewrite Hid, Hb. reflexivity.
Qed.

Lemma session_called o chunks later sessionId f :
  (forall w, sessionId_of (parse_data (toString_utf8 (Buffer_concat chunks))) w
             = (Normal sessionId, w)) ->
  ToBoolean sessionId = true ->
  ToString_throws sessionId = false ->
  onSessionHook o = Some f ->
  effects o (session_start (map Data chunks ++ End :: later))
  = [SessionHook sessionId (parse_data (toString_utf8 (Buffer_concat chunks)));
     match f sessionId (parse_data (toString_utf8 (Buffer_concat chunks))) with
     | Normal _ => R200
     | Throw _ => R500
     end].
Proof.
  intros Hid Hb Hs Hf. unfold effects. rewrite session_in_time.
  unfold step, session_reading; simpl. exec.
  rewrite Hid, Hb, Hs, Hf. simpl.
  destruct (f sessionId _) as [[]|e]; reflexivity.
Qed.

(** * The session route: bodies that do not parse, and bodies that parse to
      [null] *)

(** C4.  On the session route, a body that arrived whole and in time and
    that [JSON.parse] rejects is read as the empty object: the response is
    200 [ok], it is the only thing the request does ([onSessionHook] is not
    called, no 500 is written), whatever the callbacks and whatever happens
    to the request afterwards. *)
Theorem malformed_body_answers_200 o chunks later e :
  JSON_parse (toString_utf8 (Buffer_concat chunks)) = Throw e ->
  parse_data (toString_utf8 (Buffer_concat chunks)) = JObject []
  /\ effects o (session_start (map Data chunks ++ End :: later)) = [R200].
Proof.
  intros H.
  assert (Hd : parse_data (toString_utf8 (Buffer_concat chunks)) = JObject [])
    by (unfold parse_data; rewrite H; reflexivity).
  split; [exact Hd|].
  unfold effects. erewrite session_dropped with (sessionId := JUndefined);
    [reflexivity| |reflexivity].
  intros w. rewrite Hd. apply sessionId_of_object.
Qed.

Lemma malformed_body_witness :
  JSON_parse (toString_utf8 (Buffer_concat [json_bytes "not json"]))
  = Throw SyntaxError
  /\ effects returning (session_start (in_time [json_bytes "not json"])) = [R200].
Proof.
  assert (H : JSON_parse (toString_utf8 (Buffer_concat [json_bytes "not json"]))
              = Throw SyntaxError) by (vm_compute; reflexivity).
  split; [exact H|].
  exact (proj2 (malformed_body_answers_200 returning [json_bytes "not json"] [] H)).
Defined.

(** C9.  On the session route, a body that arrived whole and in time and
    that parses to [null] makes the extraction of the identifier throw a
    [TypeError]; the response is 500 [error] and nothing else happens:
    [onSessionHook] is not called.  The body [null] is such a body. *)
Theorem null_body_answers_500 o chunks later :
  JSON_parse (toString_utf8 (Buffer_concat chunks)) = Normal JNull ->
  (forall w, sessionId_of (parse_data (toString_utf8 (Buffer_concat chunks))) w
             = (Throw TypeError, w))
  /\ effects o (session_start (map Data chunks ++ End :: later)) = [R500]
  /\ JSON_parse (toString_utf8 (json_bytes "null")) = Normal JNull.
Proof.
  intros H.
  assert (Hd : parse_data (toString_utf8 (Buffer_concat chunks)) = JNull)
    by (unfold parse_data; rewrite H; reflexivity).
  split; [intros w; rewrite Hd; reflexivity|].
  split; [|vm_compute; reflexivity].
  unfold effects. rewrite session_in_time.
  unfold step, session_reading; simpl. exec.
  rewrite Hd. reflexivity.
Qed.

Lemma null_body_witness :
  JSON_parse (toString_utf8 (Buffer_concat [json_bytes "null"])) = Normal JNull
  /\ effects returning (session_start (in_time [json_bytes "null"])) = [R500].
Proof.
  assert (H : JSON_parse (toString_utf8 (Buffer_concat [json_bytes "null"]))
              = Normal JNull) by (vm_compute; reflexivity).
  split; [exact H|].
  exact (proj1 (proj2 (null_body_answers_500 returning [json_bytes "null"] [] H))).
Defined.

(** * The session route: which key gives the identifier *)

Lemma calls_called sessionId data (c : completion unit) :
  calls [SessionHook sessionId data;
         match c with Normal _ => R200 | Throw _ => R500 end]
  = [SessionHook sessionId data].
Proof. destruct c; reflexivity. Qed.

(** C2 as stated fails.  The body carries both keys, [session_id] with the
    empty string; the key is present, and yet [onSessionHook] is called with
    the value under [sessionId]. *)
Lemma present_snake_key_can_lose :
  JSON_parse (toString_utf8 (Buffer_concat
                [json_bytes "{'session_id':'','sessionId':'b'}"]))
  = Normal (JObject [(str "session_id", JString []);
                     (str "sessionId", JString (str "b"))])
  /\ lookup (str "session_id")
            [(str "session_id", JString []);
             (str "sessionId", JString (str "b"))]
     = Some (JString [])
  /\ effects returning
       (session_start (in_time [json_bytes "{'session_id':'','sessionId':'b'}"]))
     = [SessionHook (JString (str "b"))
                    (JObject [(str "session_id", JString []);
                              (str "sessionId", JString (str "b"))]);
        R200].
Proof. vm_compute. repeat split. Qed.

(** C2, amended.  On the session route, for a body that arrived whole and in
    time and parses to an object, with [onSessionHook] registered: the value
    under [session_id] is the identifier the callback is called with when
    that key is present with a truthy value; the value under [sessionId] is
    the identifier when it is truthy and [session_id] is absent or holds a
    falsy value.  (The identifier is one that converts to a string, as every
    string, number and boolean does.) *)
Theorem snake_case_precedence o f chunks later props :
  JSON_parse (toString_utf8 (Buffer_concat chunks)) = Normal (JObject props) ->
  onSessionHook o = Some f ->
  let t := effects o (session_start (map Data chunks ++ End :: later)) in
  (forall a,
      lookup (str "session_id") props = Some a ->
      ToBoolean a = true -> ToString_throws a = false ->
      calls t = [SessionHook a (JObject props)])
  /\
  (forall b,
      lookup (str "session_id") props = None \/
      (exists a, lookup (str "session_id") props = Some a /\ ToBoolean a = false) ->
      lookup (str "sessionId") props = Some b ->
      ToBoolean b = true -> ToString_throws b = false ->
      calls t = [SessionHook b (JObject props)]).
Proof.
  intros H Hf t.
  assert (Hd : parse_data (toString_utf8 (Buffer_concat chunks)) = JObject props)
    by (unfold parse_data; rewrite H; reflexivity).
  split.
  - intros a Ha Hb Hs. subst t.
    rewrite (@session_called o chunks later a f); auto.
    + rewrite Hd. apply calls_called.
    + intros w. rewrite Hd, sessionId_of_object, Ha.
      unfold or_else. rewrite Hb. reflexivity.
  - intros b Ha Hb Htb Hs. subst t.
    rewrite (@session_called o chunks later b f); auto.
    + rewrite Hd. apply calls_called.
    + intros w. rewrite Hd, sessionId_of_object, Hb.
      unfold or_else. destruct Ha as [Ha|(a & Ha & Hfa)]; rewrite Ha.
      * reflexivity.
      * rewrite Hfa. reflexivity.
Qed.

Lemma snake_case_precedence_witness :
  calls (effects returning
           (session_start
              (in_time [json_bytes "{'session_id':'a','sessionId':'b'}"])))
  = [SessionHook (JString (str "a"))
                 (JObject [(str "session_id", JString (str "a"));
                           (str "sessionId", JString (str "b"))])].
Proof.
  assert (H : JSON_parse (toString_utf8 (Buffer_concat
                [json_bytes "{'session_id':'a','sessionId':'b'}"]))
              = Normal (JObject [(str "session_id", JString (str "a"));
                                 (str "sessionId", JString (str "b"))]))
    by (vm_compute; reflexivity).
  refine (proj1 (@snake_case_precedence returning (fun _ _ => Normal tt)
                   [json_bytes "{'session_id':'a','sessionId':'b'}"] [] _
                   H eq_refl) (JString (str "a")) _ _ _);
    vm_compute; reflexivity.
Defined.

(** C10.  On the session route, for a body that arrived whole and in time
    and parses to an object whose [session_id] is the empty string: the
    identifier is whatever [sessionId] gives; a truthy one is what a
    registered [onSessionHook] is called with; when [sessionId] is absent or
    is the empty string too, the response is 200 [ok] and nothing else
    happens. *)
Theorem empty_snake_id_falls_back o chunks later props :
  JSON_parse (toString_utf8 (Buffer_concat chunks)) = Normal (JObject props) ->
  lookup (str "session_id") props = Some (JString []) ->
  let t := effects o (session_start (map Data chunks ++ End :: later)) in
  (forall w, sessionId_of (JObject props) w
             = lift (Get (JObject props) (str "sessionId")) w)
  /\
  (forall b f,
      lookup (str "sessionId") props = Some b ->
      ToBoolean b = true -> ToString_throws b = false ->
      onSessionHook o = Some f ->
      calls t = [SessionHook b (JObject props)])
  /\
  (lookup (str "sessionId") props = None \/
   lookup (str "sessionId") props = Some (JString []) ->
   t = [R200]).
Proof.
  intros H Ha t.
  assert (Hd : parse_data (toString_utf8 (Buffer_concat chunks)) = JObject props)
    by (unfold parse_data; rewrite H; reflexivity).
  assert (Hid : forall w, sessionId_of (JObject props) w
                          = lift (Get (JObject props) (str "sessionId")) w).
  { intros w. rewrite sessionId_of_object, Ha. reflexivity. }
  split; [exact Hid|]. split.
  - intros b f Hb Htb Hs Hf. subst t.
    rewrite (@session_called o chunks later b f); auto.
    + rewrite Hd. apply calls_called.
    + intros w. rewrite Hd, Hid. unfold lift. rewrite Get_object, Hb. reflexivity.
  - intros Hb. subst t. unfold effects.
    rewrite (@session_dropped o chunks later
               (match lookup (str "sessionId") props with
                | Some x => x | None => JUndefined end)).
    + reflexivity.
    + intros w. rewrite Hd, Hid. reflexivity.
    + destruct Hb as [Hb|Hb]; rewrite Hb; reflexivity.
Qed.

Lemma empty_snake_id_witness :
  effects returning (session_start (in_time [json_bytes "{'session_id':''}"]))
  = [R200].
Proof.
  assert (H : JSON_parse (toString_utf8 (Buffer_concat
                [json_bytes "{'session_id':''}"]))
              = Normal (JObject [(str "session_id", JString [])]))
    by (vm_compute; reflexivity).
  refine (proj2 (proj2 (@empty_snake_id_falls_back returning
                          [json_bytes "{'session_id':''}"] [] _ H _)) _).
  - vm_compute; reflexivity.
  - left; vm_compute; reflexivity.
Defined.

(** * Absent callbacks *)

(** C3 as stated fails for [onSessionHook].  A structure without it is not
    one the interface allows, and with it absent a body that carries an
    identifier is answered 500, not 200. *)
Lemma absent_onSessionHook_answers_500 :
  conforms absent = false
  /\ effects absent (session_start (in_time [json_bytes "{'session_id':'abc'}"]))
     = [R500].
Proof. vm_compute. split; reflexivity. Qed.

(** C3, amended.  [onThinkingStart] and [onThinkingStop] are each optional,
    whatever the other slots hold: with the handler absent, its route writes
    nothing while the body arrives and, at the end of the body, answers 200
    [ok] and calls nothing.  [onSessionHook] is not optional: the structures
    the interface allows are those that have it. *)
Theorem absent_thinking_handler_answers_200 o chunks later :
  (onThinkingStart o = None ->
   effects o (user_prompt_submit (map Data chunks)) = []
   /\ effects o (user_prompt_submit (map Data chunks ++ End :: later)) = [R200])
  /\
  (onThinkingStop o = None ->
   effects o (stop (map Data chunks)) = []
   /\ effects o (stop (map Data chunks ++ End :: later)) = [R200])
  /\
  (conforms o = true <-> exists f, onSessionHook o = Some f).
Proof.
  split; [|split]; [intros Ho|intros Ho|];
    unfold effects, user_prompt_submit, stop, POST; [split|split|].
  - rewrite (@drained o _ _ UserPromptSubmit) by (reflexivity || apply draining_Data).
    reflexivity.
  - rewrite (@ended o _ _ UserPromptSubmit) by (reflexivity || apply draining_Data).
    simpl. exec. rewrite Ho. reflexivity.
  - rewrite (@drained o _ _ Stop) by (reflexivity || apply draining_Data).
    reflexivity.
  - rewrite (@ended o _ _ Stop) by (reflexivity || apply draining_Data).
    simpl. exec. rewrite Ho. reflexivity.
  - unfold conforms. destruct (onSessionHook o) as [f|]; split.
    + intros _; exists f; reflexivity.
    + reflexivity.
    + discriminate.
    + intros [f Hf]; discriminate.
Qed.

Lemma absent_thinking_handler_witness :
  effects absent (user_prompt_submit (in_time [json_bytes "{}"])) = [R200]
  /\ effects absent (stop (in_time [json_bytes "{}"])) = [R200].
Proof.
  split.
  - exact (proj2 (proj1 (absent_thinking_handler_answers_200 absent
                           [json_bytes "{}"] []) eq_refl)).
  - exact (proj2 (proj1 (proj2 (absent_thinking_handler_answers_200 absent
                                  [json_bytes "{}"] [])) eq_refl)).
Defined.

(** * The timer of the session route *)











(** * Failures *)

Lemma stream_failure o m u h pre e later :
  route m u = Some h -> draining pre = true ->
  effects o (Request m u (pre ++ Fail e :: later))
  = effects o (Request m u pre)
    ++ (if existsb is_response (effects o (Request m u pre)) then [] else [R500]).
Proof.
  intros Hr Hd. unfold effects.
  rewrite (failed o m u pre e later Hr Hd), (drained o m u pre Hr Hd).
  destruct h; try reflexivity.
  simpl. destruct (timed_out pre); reflexivity.
Qed.

Lemma callback_failure o m u h pre call e later :
  route m u = Some h -> draining pre = true ->
  callback_throws o h (received pre) call e ->
  effects o (Request m u (pre ++ End :: later))
  = effects o (Request m u pre)
    ++ call
    :: (if existsb is_response (effects o (Request m u pre)) then [] else [R500]).
Proof.
  intros Hr Hd Hc. unfold effects.
  rewrite (ended o m u pre later Hr Hd), (drained o m u pre Hr Hd).
  destruct h; simpl in Hc.
  - destruct Hc as (-> & f & Hf & He). simpl. exec.
    rewrite Hf; simpl. rewrite He. reflexivity.
  - destruct Hc as (-> & f & Hf & He). simpl. exec.
    rewrite Hf; simpl. rewrite He. reflexivity.
  - destruct Hc as (sessionId & f & -> & Hid & Hb & Hs & Hf & He).
    simpl. destruct (timed_out pre); simpl; exec;
      rewrite Hid, Hb, Hs, Hf; simpl; rewrite He; reflexivity.
Qed.

Lemma one_response o q : List.length (responses (effects o q)) <= 1.
Proof.
  destruct (route (method q) (url q)) as [h|] eqn:Hr.
  - destruct (routed_responses o q Hr) as [H|(s & hd & b & H & _)];
      rewrite H; simpl; lia.
  - unfold effects, handle. rewrite Hr, unrouted. simpl; lia.
Qed.

Lemma serve_all o qs : serve o qs = map (fun q => Some (effects o q)) qs.
Proof.
  induction qs as [|q qs IH]; simpl; [reflexivity|].
  rewrite handle_uncaught, IH. reflexivity.
Qed.

(** C7.  On each route: when the stream fails while the body is read, or
    the callback the route calls at the end of the body throws, the listener
    writes 500 [error] if no response has been written before and writes
    nothing if one has; the request gets at most one response, whatever
    happens to it; and the server answers every request of any sequence,
    those that follow a failure included, as it would have on its own. *)
Theorem failure_answers_500_once o :
  (forall m u h pre e later,
      route m u = Some h -> draining pre = true ->
      effects o (Request m u (pre ++ Fail e :: later))
      = effects o (Request m u pre)
        ++ (if existsb is_response (effects o (Request m u pre))
            then [] else [R500]))
  /\
  (forall m u h pre call e later,
      route m u = Some h -> draining pre = true ->
      callback_throws o h (received pre) call e ->
      effects o (Request m u (pre ++ End :: later))
      = effects o (Request m u pre)
        ++ call
        :: (if existsb is_response (effects o (Request m u pre))
            then [] else [R500]))
  /\ (forall q, List.length (responses (effects o q)) <= 1)
  /\ (forall q, uncaught (handle o q) = [])
  /\ (forall qs, serve o qs = map (fun q => Some (effects o q)) qs).
Proof.
  split; [intros; eapply stream_failure; eassumption|].
  split; [intros; eapply callback_failure; eassumption|].
  split; [apply one_response|].
  split; [apply handle_uncaught|apply serve_all].
Qed.

Lemma failure_answers_500_once_witness :
  effects throwing (stop [Data (json_bytes "{}"); End]) = [ThinkingStop; R500]
  /\ effects throwing (session_start [Data (json_bytes "{}"); Fail StreamError])
     = [R500]
  /\ serve throwing [stop [Data (json_bytes "{}"); End]; stop [End]]
     = [Some [ThinkingStop; R500]; Some [ThinkingStop; R500]].
Proof.
  split; [|split].
  - refine (proj1 (proj2 (failure_answers_500_once throwing))
              (str "POST") (str "/hook/stop") Stop [Data (json_bytes "{}")]
              ThinkingStop (Thrown 2) [] eq_refl eq_refl _).
    split; [reflexivity|]. eexists; split; reflexivity.
  - exact (proj1 (failure_answers_500_once throwing)
             (str "POST") (str "/hook/session-start") SessionStart
             [Data (json_bytes "{}")] StreamError [] eq_refl eq_refl).
  - exact (proj2 (proj2 (proj2 (proj2 (failure_answers_500_once throwing))))
             [stop [Data (json_bytes "{}"); End]; stop [End]]).
Defined.

(** * Routing *)

(** C8.  The listener answers to three pairs of method and target, POST
    with [/hook/user-prompt-submit], [/hook/stop] or [/hook/session-start].
    A request with one of them is never answered 404.  A request with any
    other pair is answered 404 [not found] at once: the listener returns
    without reading the body, nothing that happens to the request is heard,
    and no callback is called. *)
Theorem routing_is_exact o m u evs :
  (In (m, u) recognized ->
   route m u <> None
   /\ forall headers body, ~ In (Respond 404 headers body) (effects o (Request m u evs)))
  /\
  (~ In (m, u) recognized ->
   route m u = None
   /\ handle o (Request m u evs) = Call (World [R404] NoTimer) Returned []).
Proof.
  split; intros H.
  - apply route_recognized in H. split; [exact H|].
    destruct (route m u) as [h|] eqn:Hr; [|congruence].
    intros hd b Hin.
    assert (Hin' : In (Respond 404 hd b) (responses (effects o (Request m u evs))))
      by (apply filter_In; split; [exact Hin|reflexivity]).
    destruct (@routed_responses o (Request m u evs) h Hr)
      as [E|(s & hd' & b' & E & Hs)]; rewrite E in Hin'.
    + destruct Hin'.
    + destruct Hin' as [Heq|[]]. injection Heq as -> _ _.
      simpl in Hs. destruct Hs as [Hs|[Hs|[Hs|[]]]]; discriminate Hs.
  - assert (Hr : route m u = None).
    { destruct (route m u) eqn:Hr; [|reflexivity].
      exfalso. apply H, route_recognized. congruence. }
    split; [exact Hr|]. unfold handle; simpl. rewrite Hr. apply unrouted.
Qed.

Lemma routing_is_exact_witness :
  effects returning (Request (str "GET") (str "/hook/session-start")
                             [Data (json_bytes "{'session_id':'abc'}"); End])
  = [R404]
  /\ effects returning (Request (str "POST") (str "/unknown")
                                [Data (json_bytes "{'session_id':'abc'}"); End])
     = [R404]
  /\ route (str "POST") (str "/hook/stop") <> None.
Proof.
  assert (H1 : ~ In (str "GET", str "/hook/session-start") recognized)
    by (intros [H|[H|[H|[]]]]; vm_compute in H; discriminate H).
  assert (H2 : ~ In (str "POST", str "/unknown") recognized)
    by (intros [H|[H|[H|[]]]]; vm_compute in H; discriminate H).
  assert (H3 : In (str "POST", str "/hook/stop") recognized)
    by (right; left; reflexivity).
  split; [|split].
  - exact (f_equal (fun c => trace (world_of c))
             (proj2 (proj2 (routing_is_exact returning (str "GET")
                              (str "/hook/session-start")
                              [Data (json_bytes "{'session_id':'abc'}"); End])
                           H1))).
  - exact (f_equal (fun c => trace (world_of c))
             (proj2 (proj2 (routing_is_exact returning (str "POST")
                              (str "/unknown")
                              [Data (json_bytes "{'session_id':'abc'}"); End])
                           H2))).
  - exact (proj1 (proj1 (routing_is_exact returning (str "POST")
                           (str "/hook/stop") []) H3)).
Defined.

(** * The forwarder *)

Lemma span_digits_count s : forall acc n,
  n <= snd (fst (span_digits s acc n)).
Proof.
  induction s as [|c r IH]; intros acc n; simpl; [lia|].
  destruct (is_digit c); simpl; [|lia].
  specialize (IH (acc * 10 + (c - 48))%N (S n)). lia.
Qed.

Lemma span_digits_none s :
  snd (fst (span_digits s 0 0)) = 0
  <-> match s with c :: _ => is_digit c = false | [] => True end.
Proof.
  destruct s as [|c r]; simpl; [tauto|].
  destruct (is_digit c); simpl; [|tauto].
  match goal with
  | |- context [span_digits r ?a 1] => pose proof (span_digits_count r a 1)
  end.
  split; [lia|discriminate].
Qed.

(** [parseInt] answers [NaN] on the strings that are not numeric, and only
    on them. *)
Lemma parseInt_NaN s : parseInt s = None <-> numeric s = false.
Proof.
  unfold parseInt, numeric.
  destruct (sign (trim_start s)) as [neg s1]; simpl.
  pose proof (span_digits_none s1) as H.
  destruct (span_digits s1 0 0) as [[m n] r]; simpl in H.
  destruct s1 as [|c s1], n; simpl in *; split; intros; try congruence;
    try tauto; try (destruct H; congruence);
    exfalso; assert (S n = 0) by (apply H; auto); discriminate.
Qed.

(** C5.  When the port argument is missing, is not numeric, or parses to
    zero, the forwarder does one thing: it exits with status 1.  It makes no
    request and never starts reading standard input, whatever standard input
    holds. *)
Theorem invalid_port_exits argv input :
  nth_error argv 2 = None
  \/ (exists s, nth_error argv 2 = Some s /\ numeric s = false)
  \/ Forwarder.port_of argv = Some 0%Z ->
  Forwarder.session_hook_forwarder argv input = [Forwarder.Exit 1].
Proof.
  intros H.
  assert (Hr : Forwarder.rejected (Forwarder.port_of argv) = true).
  { destruct H as [H|[(s & H & Hs)|H]].
    - unfold Forwarder.port_of. rewrite H. reflexivity.
    - unfold Forwarder.port_of. rewrite H.
      apply parseInt_NaN in Hs. rewrite Hs. reflexivity.
    - rewrite H. reflexivity. }
  unfold Forwarder.session_hook_forwarder. rewrite Hr. reflexivity.
Qed.

Lemma invalid_port_exits_witness :
  Forwarder.session_hook_forwarder [str "node"; str "forwarder.cjs"]
    [Forwarder.Chunk (json_bytes "{}"); Forwarder.Eof] = [Forwarder.Exit 1]
  /\ Forwarder.session_hook_forwarder [str "node"; str "forwarder.cjs"; str "port"]
       [Forwarder.Chunk (json_bytes "{}"); Forwarder.Eof] = [Forwarder.Exit 1]
  /\ Forwarder.session_hook_forwarder [str "node"; str "forwarder.cjs"; str "0"]
       [Forwarder.Chunk (json_bytes "{}"); Forwarder.Eof] = [Forwarder.Exit 1].
Proof.
  split; [|split]; apply invalid_port_exits.
  - left; reflexivity.
  - right; left. exists (str "port"). split; reflexivity.
  - right; right; reflexivity.
Defined.

Lemma listen_to_end p eventType chunks later : forall acc,
  Forwarder.listen p eventType acc (map Forwarder.Chunk chunks ++ Forwarder.Eof :: later)
  = [Forwarder.on_end p eventType (acc ++ chunks)].
Proof.
  induction chunks as [|c chunks IH]; intros acc; simpl.
  - rewrite app_nil_r; reflexivity.
  - rewrite IH, <- app_assoc. reflexivity.
Qed.

Lemma valid_path_hook eventType :
  Forwarder.valid_path (str "/hook/" ++ eventType)
  = Forwarder.valid_path eventType.
Proof.
  unfold Forwarder.valid_path. rewrite forallb_app. reflexivity.
Qed.

(** With a port and a path that [http.request] takes up, the listener of
    ['end'] makes the request and ends it with the body. *)
Lemma on_end_request p eventType chunks :
  (1 <= p <= 65535)%Z -> Forwarder.valid_path eventType = true ->
  Forwarder.on_end p eventType chunks
  = Forwarder.HttpRequest
      (Forwarder.RequestOptions
         (str "127.0.0.1") p (str "POST") (str "/hook/" ++ eventType)
         [(str "Content-Type", Forwarder.HText (str "application/json"));
          (str "Content-Length",
           Forwarder.HNumber (List.length (Buffer_concat chunks)))])
      (Buffer_concat chunks).
Proof.
  intros Hp He. unfold Forwarder.on_end, Forwarder.http_request.
  cbn [Forwarder.path Forwarder.port].
  rewrite valid_path_hook, He.
  assert (Hv : Forwarder.valid_port p = true).
  { unfold Forwarder.valid_port. apply andb_true_iff.
    split; apply Z.leb_le; lia. }
  rewrite Hv. reflexivity.
Qed.

Lemma accepted p : (p <> 0)%Z -> Forwarder.rejected (Some p) = false.
Proof. intros H. simpl. apply Z.eqb_neq. exact H. Qed.




(** * [JSON.parse] never runs out of fuel *)

Lemma skip_ws_length s : List.length (skip_ws s) <= List.length s.
Proof.
  induction s as [|c s IH]; simpl; [lia|].
  destruct (is_json_ws c); simpl; lia.
Qed.

Lemma string_chars_length n : forall s acc t r,
  List.length s <= n -> string_chars s acc = Some (t, r) ->
  List.length r < List.length s.
Proof.
  induction n as [|n IH]; intros [|c s] acc t r Hn H; simpl in *;
    try discriminate; try lia.
  destruct (c =? dquote)%N; [injection H as _ <-; lia|].
  destruct (c =? 92)%N.
  - destruct s as [|e s]; [discriminate|].
    destruct (e =? 117)%N.
    + destruct s as [|h1 [|h2 [|h3 [|h4 s]]]]; try discriminate.
      destruct (hex4 h1 h2 h3 h4); [|discriminate].
      apply IH in H; simpl in *; lia.
    + destruct (escape e); [|discriminate].
      apply IH in H; simpl in *; lia.
  - destruct (c <? 32)%N; [discriminate|].
    apply IH in H; simpl in *; lia.
Qed.

Lemma strip_prefix_length p : forall s r,
  p <> [] -> strip_prefix p s = Some r -> List.length r < List.length s.
Proof.
  induction p as [|x p IH]; intros s r Hp H; [congruence|].
  destruct s as [|y s]; simpl in H; [discriminate|].
  destruct (x =? y)%N; [|discriminate].
  destruct p as [|x' p].
  - simpl in H. injection H as <-. simpl; lia.
  - apply IH in H; [simpl in *; lia|discriminate].
Qed.

Lemma span_digits_length s : forall acc n,
  List.length (snd (span_digits s acc n)) <= List.length s.
Proof.
  induction s as [|c s IH]; intros acc n; simpl; [lia|].
  destruct (is_digit c); simpl; [|lia].
  specialize (IH (acc * 10 + (c - 48))%N (S n)). lia.
Qed.

Lemma sign_length s : List.length (snd (sign s)) <= List.length s.
Proof.
  destruct s as [|c s]; simpl; [lia|]. repeat case_if; simpl; lia.
Qed.

Lemma minus_length s : List.length (snd (minus s)) <= List.length s.
Proof.
  destruct s as [|c s]; simpl; [lia|]. case_if; simpl; lia.
Qed.

Lemma integer_part_length s i r :
  integer_part s = Some (i, r) -> List.length r < List.length s.
Proof.
  destruct s as [|c s]; simpl; [discriminate|].
  case_if; [|discriminate].
  case_if; [intros H; injection H as _ <-; lia|].
  match goal with
  | |- context [span_digits s ?a 1] => pose proof (span_digits_length s a 1) as Hl
  end.
  destruct (span_digits s _ 1) as [[i' k] r']. intros H; injection H as _ <-.
  simpl in Hl; lia.
Qed.

Lemma fraction_length s int m k r :
  fraction s int = Some (m, k, r) -> List.length r <= List.length s.
Proof.
  unfold fraction. destruct s as [|c s]; [intros H; injection H as _ _ <-; lia|].
  destruct (c =? ch ".")%N; [|intros H; injection H as _ _ <-; lia].
  pose proof (span_digits_length s int 0) as Hl.
  destruct (span_digits s int 0) as [[m' [|k']] r']; [discriminate|].
  intros H; injection H as _ _ <-. simpl in *; lia.
Qed.

Lemma exponent_part_length s e r :
  exponent_part s = Some (e, r) -> List.length r <= List.length s.
Proof.
  unfold exponent_part. destruct s as [|c s]; [intros H; injection H as _ <-; lia|].
  destruct ((c =? ch "e") || (c =? ch "E"))%N; [|intros H; injection H as _ <-; lia].
  pose proof (sign_length s) as Hs.
  destruct (sign s) as [neg r1]; simpl in Hs.
  pose proof (span_digits_length r1 0 0) as Hl.
  destruct (span_digits r1 0 0) as [[e' [|k']] r2]; [discriminate|].
  intros H; injection H as _ <-. simpl in *; lia.
Qed.

Lemma number_literal_length s n r :
  number_literal s = Some (n, r) -> List.length r < List.length s.
Proof.
  unfold number_literal.
  pose proof (minus_length s) as Hm.
  destruct (minus s) as [neg s1]; simpl in Hm.
  destruct (integer_part s1) as [[int s2]|] eqn:Ei; [|discriminate].
  apply integer_part_length in Ei.
  destruct (fraction s2 int) as [[[m k] s3]|] eqn:Ef; [|discriminate].
  apply fraction_length in Ef.
  destruct (exponent_part s3) as [[e s4]|] eqn:Ee; [|discriminate].
  apply exponent_part_length in Ee.
  intros H; injection H as _ <-. lia.
Qed.

Arguments skip_ws : simpl never.
Arguments string_chars : simpl never.
Arguments strip_prefix : simpl never.
Arguments number_literal : simpl never.

(** Length facts for what the pieces of the parser leave. *)
Ltac lengths :=
  repeat match goal with
    | H : skip_ws ?x = _ |- _ =>
        pose proof (skip_ws_length x);
        apply (f_equal (@List.length N)) in H
    | H : string_chars ?x _ = Some _ |- _ =>
        apply (@string_chars_length (List.length x)) in H; [|lia]
    | H : strip_prefix _ _ = Some _ |- _ =>
        apply strip_prefix_length in H; [|vm_compute; discriminate]
    | H : number_literal _ = Some _ |- _ => apply number_literal_length in H
    end;
  simpl in *; try lia.

Ltac break_match H :=
  match type of H with
  | context [match ?x with _ => _ end] => destruct x eqn:?
  end.

(** What a parser returns is shorter than what it was given. *)
Lemma parse_shortens fuel :
  (forall s v r, value_at fuel s = Parsed v r ->
                 List.length r < List.length s)
  /\ (forall s acc v r, elements_at fuel s acc = Parsed v r ->
                        List.length r < List.length s)
  /\ (forall s acc v r, members_at fuel s acc = Parsed v r ->
                        List.length r < List.length s).
Proof.
  induction fuel as [|fuel (IHv & IHe & IHm)];
    [repeat split; intros; discriminate|].
  repeat split.
  - intros s v r H. simpl in H.
    repeat (break_match H; try discriminate);
      try (injection H as _ <-);
      try (apply IHe in H); try (apply IHm in H); lengths.
  - intros s acc v r H. simpl in H.
    repeat (break_match H; try discriminate);
      try (injection H as _ <-);
      try (apply IHe in H);
      match goal with Hv : value_at _ _ = Parsed _ _ |- _ => apply IHv in Hv end;
      lengths.
  - intros s acc v r H. simpl in H.
    repeat (break_match H; try discriminate);
      try (injection H as _ <-);
      try (apply IHm in H);
      match goal with Hv : value_at _ _ = Parsed _ _ |- _ => apply IHv in Hv end;
      lengths.
Qed.

Ltac case_match :=
  match goal with
  | |- context [match ?x with _ => _ end] => destruct x eqn:?
  end.

(** Two units of fuel for each character, and two more, are enough. *)
Lemma parse_fuel fuel :
  (forall s, 2 * List.length s + 2 <= fuel -> value_at fuel s <> OutOfFuel)
  /\ (forall s acc, 2 * List.length s + 3 <= fuel ->
                    elements_at fuel s acc <> OutOfFuel)
  /\ (forall s acc, 2 * List.length s + 3 <= fuel ->
                    members_at fuel s acc <> OutOfFuel).
Proof.
  induction fuel as [|fuel (IHv & IHe & IHm)];
    [repeat split; intros; lia|].
  destruct (parse_shortens fuel) as (Sv & _ & _).
  repeat split.
  - intros s Hf. simpl.
    repeat (case_match; try discriminate);
      try (apply IHe); try (apply IHm); lengths.
  - intros s acc Hf. simpl.
    repeat (case_match; try discriminate);
      try match goal with
          | Hv : value_at _ _ = Parsed _ _ |- _ => apply Sv in Hv
          | Hv : value_at _ _ = OutOfFuel |- _ => exfalso; revert Hv; apply IHv
          end;
      try (apply IHe); lengths.
  - intros s acc Hf. simpl.
    repeat (case_match; try discriminate);
      try match goal with
          | Hv : value_at _ _ = Parsed _ _ |- _ => apply Sv in Hv
          | Hv : value_at _ _ = OutOfFuel |- _ => exfalso; revert Hv; apply IHv
          end;
      try (apply IHm); lengths.
Qed.

(** [JSON.parse] throws only on a text that is not a JSON value between
    optional white space: the fuel it gives [value_at] is never used up. *)
Lemma value_at_fuel s : value_at (fuel_for s) s <> OutOfFuel.
Proof. apply parse_fuel. unfold fuel_for. lia. Qed.

Lemma JSON_parse_throws text e :
  JSON_parse text = Throw e ->
  e = SyntaxError
  /\ (value_at (fuel_for text) text = Malformed
      \/ exists v rest,
           value_at (fuel_for text) text = Parsed v rest
           /\ skip_ws rest <> []).
Proof.
  unfold JSON_parse. pose proof (value_at_fuel text) as Hf.
  destruct (value_at (fuel_for text) text) as [v rest| |]; [| |congruence].
  - destruct (skip_ws rest) as [|c r] eqn:E; [discriminate|].
    intros H; injection H as <-. split; [reflexivity|right].
    exists v, rest. split; [reflexivity|]. rewrite E; discriminate.
  - intros H; injection H as <-. auto.
Qed.

(** * Examples *)

Example utf8_two_bytes : toString_utf8 (Buffer_from [0xC3; 0xA9]%N) = [0xE9]%N.
Proof. reflexivity. Qed.

Example utf8_surrogate_pair :
  toString_utf8 (Buffer_from [0xF0; 0x9F; 0x98; 0x80]%N) = [0xD83D; 0xDE00]%N.
Proof. reflexivity. Qed.

Example utf8_stray_byte :
  toString_utf8 (Buffer_from [0x61; 0xFF; 0x62]%N) = [0x61; 0xFFFD; 0x62]%N.
Proof. reflexivity. Qed.

Example utf8_cut_short : toString_utf8 (Buffer_from [0xE2; 0x82]%N) = [0xFFFD]%N.
Proof. reflexivity. Qed.

Example utf8_overlong :
  toString_utf8 (Buffer_from [0xE0; 0x80; 0x41]%N) = [0xFFFD; 0xFFFD; 0x41]%N.
Proof. reflexivity. Qed.

Example parse_escapes :
  JSON_parse (toString_utf8 (json_bytes "'A\n\/'"))
  = Normal (JString [65; 10; 47]%N).
Proof. vm_compute. reflexivity. Qed.

Example parse_repeated_key :
  JSON_parse (toString_utf8 (json_bytes "{'a':1,'b':[],'a':null}"))
  = Normal (JObject [(str "a", JNull); (str "b", JArray [])]).
Proof. vm_compute. reflexivity. Qed.

Example parse_number :
  JSON_parse (toString_utf8 (json_bytes " -12.50e+3 "))
  = Normal (JNumber (Num true 1250 1)).
Proof. vm_compute. reflexivity. Qed.

Example parse_rejects :
  map (fun t => JSON_parse (toString_utf8 (json_bytes t)))
      ["not json"; " "; "01"; "1."; "-"; ".5"; "[1,]"; "{'a':1,}"; "{a:1}";
       "nul"; "[1 2]"; "{} x"; "'a"; "'\x'"; "undefined"]%string
  = repeat (Throw SyntaxError) 15.
Proof. vm_compute. reflexivity. Qed.

Example zero_numbers :
  map is_zero [Num false 0 0; Num true 0 0; Num false 0 (-1);
               Num false 1 (-400); Num false 247 (-326)]
  = [true; true; true; true; true].
Proof. vm_compute. reflexivity. Qed.

Example non_zero_numbers :
  map is_zero [Num false 1 0; Num true 5 (-324); Num false 248 (-326);
               Num false 1 400]
  = [false; false; false; false].
Proof. vm_compute. reflexivity. Qed.

Example parseInt_examples :
  map (fun t => parseInt (str t))
      ["52290"; " 80"; "+80"; "-80"; "80px"; "8.5"; "0"; "-0"; "0x10";
       " "; "port"; "undefined"]%string
  = [Some 52290; Some 80; Some 80; Some (-80); Some 80; Some 8; Some 0;
     Some 0; Some 0; None; None; None]%Z.
Proof. vm_compute. reflexivity. Qed.

Example snake_case_body :
  effects returning (session_start (in_time [json_bytes "{'session_id':'abc'}"]))
  = [SessionHook (JString (str "abc"))
                 (JObject [(str "session_id", JString (str "abc"))]);
     R200].
Proof. vm_compute. reflexivity. Qed.

Example camel_case_body :
  effects returning (session_start (in_time [json_bytes "{'sessionId':'xyz'}"]))
  = [SessionHook (JString (str "xyz"))
                 (JObject [(str "sessionId", JString (str "xyz"))]);
     R200].
Proof. vm_compute. reflexivity. Qed.

Example body_in_two_chunks :
  effects returning
    (session_start (in_time [json_bytes "{'session"; json_bytes "_id':'abc'}"]))
  = [SessionHook (JString (str "abc"))
                 (JObject [(str "session_id", JString (str "abc"))]);
     R200].
Proof. vm_compute. reflexivity. Qed.

Example body_without_identifier :
  map (fun t => effects returning (session_start (in_time [json_bytes t])))
      ["{}"; "[]"; "5"; "'abc'"; "true"; "{'session_id':0}";
       "{'session_id':null,'sessionId':false}"]%string
  = repeat [R200] 7.
Proof. vm_compute. reflexivity. Qed.

Example identifier_without_string_form :
  effects returning
    (session_start (in_time [json_bytes "{'session_id':{'toString':1}}"]))
  = [R500].
Proof. vm_compute. reflexivity. Qed.

Example thinking_hooks :
  effects returning (user_prompt_submit (in_time [])) = [ThinkingStart; R200]
  /\ effects returning (stop (in_time [])) = [ThinkingStop; R200].
Proof. vm_compute. split; reflexivity. Qed.

Example throwing_session_hook :
  effects throwing (session_start (in_time [json_bytes "{'session_id':'abc'}"]))
  = [SessionHook (JString (str "abc"))
                 (JObject [(str "session_id", JString (str "abc"))]);
     R500].
Proof. vm_compute. reflexivity. Qed.

Example body_never_ends :
  effects returning (session_start [Data (json_bytes "{"); Timeout]) = [R408]
  /\ effects returning (stop [Data (json_bytes "{"); Timeout]) = [].
Proof. vm_compute. split; reflexivity. Qed.

Example forwarder_named_event :
  Forwarder.session_hook_forwarder
    [str "node"; str "forwarder.cjs"; str "52290"; str "stop"]
    [Forwarder.Eof]
  = [Forwarder.StdinResume;
     Forwarder.HttpRequest
       (Forwarder.RequestOptions
          (str "127.0.0.1") 52290 (str "POST") (str "/hook/stop")
          [(str "Content-Type", Forwarder.HText (str "application/json"));
           (str "Content-Length", Forwarder.HNumber 0)])
       []].
Proof. vm_compute. reflexivity. Qed.

Example forwarder_waits_for_end :
  Forwarder.session_hook_forwarder
    [str "node"; str "forwarder.cjs"; str "52290"]
    [Forwarder.Chunk (json_bytes "{}")]
  = [Forwarder.StdinResume].
Proof. vm_compute. reflexivity. Qed.

(** * The permission mode selector *)

Module SelectorFacts.
Import Selector.

Lemma at_index_options i :
  (0 <= i <= 3)%Z -> exists option, at_index options i = Some option.
Proof.
  intros H.
  assert (Hi : i = 0%Z \/ i = 1%Z \/ i = 2%Z \/ i = 3%Z) by lia.
  destruct Hi as [ -> | [ -> | [ -> | -> ]]]; eexists; reflexivity.
Qed.

Lemma step_valid c ev : valid c -> valid (step c ev).
Proof.
  intros (Hs & Hr & Ht). destruct ev as [input key|]; simpl.
  - unfold on_input.
    destruct (upArrow key); [repeat split; simpl; try lia; exact Ht|].
    destruct (downArrow key); [repeat split; simpl; try lia; exact Ht|].
    destruct (return_ key).
    { destruct (at_index_options Hr) as [option Ho]. rewrite Ho.
      repeat split; simpl; try lia; exact Ht. }
    repeat case_if; repeat split; simpl; try lia; exact Ht.
  - repeat split; simpl; try lia; exact Ht.
Qed.

Lemma fold_valid evs : forall c,
  valid c -> valid (fold_left step evs c).
Proof.
  induction evs as [|ev evs IH]; intros c Hc; simpl; [exact Hc|].
  apply IH, step_valid, Hc.
Qed.

Lemma run_app evs evs' : run (evs ++ evs') = fold_left step evs' (run evs).
Proof. unfold run. apply fold_left_app. Qed.

Lemma run_valid evs : valid (run evs).
Proof.
  apply fold_valid. repeat split; simpl; lia.
Qed.

(** X1.  Whatever keys are pressed and whenever React renders, the selected
    index stays a row of the list (0 to 3), in the state and in the last
    render, so [options[selectedIndex]] is always defined: the read of
    [mode] in the branch of Enter always finds a row. *)
Theorem selection_stays_in_range evs :
  (0 <= selectedIndex (run evs) <= 3)%Z
  /\ (0 <= rendered (run evs) <= 3)%Z
  /\ (exists option,
        at_index options (selectedIndex (run evs)) = Some option)
  /\ (exists option, at_index options (rendered (run evs)) = Some option).
Proof.
  assert (H : valid (run evs))
    by (unfold run; apply fold_valid; repeat split; simpl; lia).
  destruct H as (Hs & Hr & _).
  repeat split; try lia; apply at_index_options; assumption.
Qed.

(** X2.  Enter (with no arrow flag) always finds a row: it calls [onSelect]
    once, with the mode of the row the last render shows as selected, and
    changes nothing else, even when arrow keys have moved the state since
    that render. *)
Theorem enter_selects_rendered_row evs input key :
  upArrow key = false -> downArrow key = false -> return_ key = true ->
  exists option,
    at_index options (rendered (run evs)) = Some option
    /\ run (evs ++ [Input input key]) = call (onSelect (mode option)) (run evs).
Proof.
  intros Hu Hd Hr.
  destruct (run_valid evs) as (_ & Hrange & _).
  destruct (at_index_options Hrange) as [option Ho].
  exists option. split; [exact Ho|].
  rewrite run_app. simpl. unfold on_input. rewrite Hu, Hd, Hr, Ho. reflexivity.
Qed.

Lemma enter_selects_rendered_row_witness :
  run [key_down; key_up; key_up; key_enter]
  = Component 1 2 [onSelect bypassPermissions] [].
Proof.
  destruct (@enter_selects_rendered_row [key_down; key_up; key_up] [13]%N
              (MkKey false false true false false) eq_refl eq_refl eq_refl)
    as (option & Ho & Hrun).
  change (run ([key_down; key_up; key_up] ++ [key_enter])
          = Component 1 2 [onSelect bypassPermissions] []).
  unfold key_enter. rewrite Hrun.
  injection Ho as <-. reflexivity.
Defined.

Lemma rows_cases shown r :
  In r (rows shown) ->
  exists index option,
    at_index options index = Some option
    /\ (0 <= index <= 3)%Z
    /\ r = Row (shown =? index)%Z
               (if (shown =? index)%Z then "cyan" else "gray")
               (if (shown =? index)%Z then [0x203A; 32]%N else [32; 32]%N)
               (index + 1) (label option) (description option).
Proof.
  unfold rows; simpl.
  intros [<-|[<-|[<-|[<-|[]]]]];
    [exists 0%Z|exists 1%Z|exists 2%Z|exists 3%Z];
    eexists; (split; [reflexivity|]); (split; [lia|reflexivity]).
Qed.

(** X3.  Each row can be chosen by the number it is displayed with: typing
    that digit (with no arrow, Enter or Escape flag) moves the selection to
    the row and calls [onSelect] once, with the mode of the option the row
    displays; the next render marks that row and no other. *)
Theorem digit_selects_its_row shown r key c :
  In r (rows shown) -> plain key ->
  let c' := on_input [48 + Z.to_N (number r)]%N key c in
  selectedIndex c' = (number r - 1)%Z
  /\ (exists option,
        In option options /\ label option = row_label r
        /\ called c' = called c ++ [onSelect (mode option)])
  /\ (forall r', In r' (rows (selectedIndex c')) ->
                 (isSelected r' = true <-> number r' = number r)).
Proof.
  intros Hr (Hu & Hd & He & Hx) c'.
  destruct (rows_cases Hr) as (index & option & Ho & Hi & ->).
  assert (Hc : selectedIndex c' = index
               /\ called c' = called c ++ [onSelect (mode option)]).
  { subst c'. unfold on_input. rewrite Hu, Hd, He, Hx. simpl number.
    assert (Hcase : index = 0%Z \/ index = 1%Z \/ index = 2%Z \/ index = 3%Z)
      by lia.
    destruct Hcase as [ -> | [ -> | [ -> | -> ]]];
      injection Ho as <-; destruct (ctrl key); split; reflexivity. }
  destruct Hc as [Hs Hc]. simpl number.
  split; [rewrite Hs; lia|]. split.
  - exists option. split; [|split; [reflexivity|exact Hc]].
    unfold at_index in Ho. destruct (index <? 0)%Z; [discriminate|].
    eapply nth_error_In; exact Ho.
  - intros r' Hr'. rewrite Hs in Hr'.
    destruct (rows_cases Hr') as (index' & option' & _ & _ & ->).
    simpl. rewrite Z.eqb_eq. lia.
Qed.

Lemma digit_selects_its_row_witness :
  selectedIndex (on_input [48 + Z.to_N 4]%N
                          (MkKey false false false false true) mount)
  = (4 - 1)%Z.
Proof.
  assert (Hr : In (Row false "gray" [32; 32]%N 4 "Plan" "Plan mode only")
                  (rows 2)) by (simpl; auto 6).
  assert (Hp : plain (MkKey false false false false true))
    by (repeat split).
  exact (proj1 (@digit_selects_its_row 2 _ _ mount Hr Hp)).
Defined.

Lemma ups n : forall c, (0 <= selectedIndex c)%Z ->
  fold_left step (repeat key_up n) c
  = Component (Z.max 0 (selectedIndex c - Z.of_nat n)) (rendered c)
              (called c) (thrown c).
Proof.
  induction n as [|n IH]; intros [i r k t] Hi; simpl in *.
  - f_equal; lia.
  - unfold on_input; simpl. unfold setSelectedIndex; simpl.
    rewrite IH by (simpl; lia). simpl. f_equal; lia.
Qed.

Lemma downs n : forall c, (selectedIndex c <= 3)%Z ->
  fold_left step (repeat key_down n) c
  = Component (Z.min 3 (selectedIndex c + Z.of_nat n)) (rendered c)
              (called c) (thrown c).
Proof.
  induction n as [|n IH]; intros [i r k t] Hi; simpl in *.
  - f_equal; lia.
  - unfold on_input; simpl. unfold setSelectedIndex; simpl.
    rewrite IH by (simpl; lia). simpl. f_equal; lia.
Qed.

(** X4.  The arrows stop at the ends of the list instead of wrapping:
    from any state, three or more Up keys lead to the first row and three or
    more Down keys to the last, so that after the next render Enter selects
    [default], respectively [plan]. *)
Theorem arrows_stop_at_the_ends evs n :
  3 <= n ->
  called (run (evs ++ repeat key_up n ++ [Render; key_enter]))
  = called (run evs) ++ [onSelect default]
  /\ called (run (evs ++ repeat key_down n ++ [Render; key_enter]))
     = called (run evs) ++ [onSelect plan].
Proof.
  intros Hn. destruct (run_valid evs) as (Hs & _ & _).
  split; rewrite run_app, fold_left_app.
  - rewrite ups by lia. simpl.
    replace (Z.max 0 (selectedIndex (run evs) - Z.of_nat n)) with 0%Z by lia.
    reflexivity.
  - rewrite downs by lia. simpl.
    replace (Z.min 3 (selectedIndex (run evs) + Z.of_nat n)) with 3%Z by lia.
    reflexivity.
Qed.

Lemma arrows_stop_at_the_ends_witness :
  called (run ([key_down] ++ repeat key_up 5 ++ [Render; key_enter]))
  = [onSelect default].
Proof.
  exact (proj1 (@arrows_stop_at_the_ends [key_down] 5 ltac:(lia))).
Defined.

(** X5.  Every render marks exactly one row as selected: the row whose
    displayed number is the selected index plus one. *)
Theorem one_row_is_marked evs :
  map number (filter isSelected (rows (rendered (run evs))))
  = [(rendered (run evs) + 1)%Z].
Proof.
  destruct (run_valid evs) as (_ & Hr & _).
  assert (Hcase : rendered (run evs) = 0%Z \/ rendered (run evs) = 1%Z
                  \/ rendered (run evs) = 2%Z \/ rendered (run evs) = 3%Z)
    by lia.
  destruct Hcase as [ -> | [ -> | [ -> | -> ]]]; reflexivity.
Qed.

End SelectorFacts.

(** * The forwarder, on any port and any input *)

Import More.

Lemma listen_any p eventType input : forall acc,
  Forwarder.listen p eventType acc input
  = if input_ended input
    then [Forwarder.on_end p eventType (acc ++ before_end input)]
    else [].
Proof.
  induction input as [|[c|] input IH]; intros acc; simpl.
  - reflexivity.
  - rewrite IH, <- app_assoc. reflexivity.
  - rewrite app_nil_r. reflexivity.
Qed.

(** With a port that is a number other than zero, the forwarder starts
    reading, and runs the listener of ['end'] when the input ends. *)
Lemma accepted_port_listens argv p input :
  Forwarder.port_of argv = Some p -> p <> 0%Z ->
  Forwarder.session_hook_forwarder argv input
  = Forwarder.StdinResume
    :: (if input_ended input
        then [Forwarder.on_end p (Forwarder.eventType_of argv)
                (before_end input)]
        else []).
Proof.
  intros Hp Hz. unfold Forwarder.session_hook_forwarder.
  rewrite Hp, accepted by exact Hz. rewrite listen_any. reflexivity.
Qed.


Lemma named_event_of argv eventType :
  named_event argv eventType -> Forwarder.eventType_of argv = eventType.
Proof.
  unfold Forwarder.eventType_of.
  intros [[H Hne]|[[H|H] ->]]; rewrite H; [|reflexivity..].
  destruct eventType; [congruence|reflexivity].
Qed.


(** [http.request] refuses a port out of range. *)
Lemma on_end_bad_port p eventType chunks :
  ~ (0 <= p <= 65535)%Z ->
  Forwarder.on_end p eventType chunks
  = Forwarder.Uncaught
      (if Forwarder.valid_path eventType
       then ERR_SOCKET_BAD_PORT else ERR_UNESCAPED_CHARACTERS).
Proof.
  intros Hp. unfold Forwarder.on_end, Forwarder.http_request.
  cbn [Forwarder.path Forwarder.port]. rewrite valid_path_hook.
  destruct (Forwarder.valid_path eventType); [|reflexivity].
  assert (Hv : Forwarder.valid_port p = false).
  { unfold Forwarder.valid_port. apply andb_false_iff.
    destruct (Z.leb_spec 0 p); [right|left; reflexivity].
    apply Z.leb_gt. lia. }
  rewrite Hv. reflexivity.
Qed.

(** X6.  The forwarder itself checks the port against no range: only a port
    that is not a number, or is zero, makes it exit before reading.  With a
    port argument that parses to a number below 0 or above 65535 it starts
    reading standard input and does nothing more while the input is open.
    When the input ends, [http.request] throws, on the port, or on the path
    if the event type has a character it does not take: nothing catches the
    error, and no request is made. *)
Theorem port_range_is_not_checked argv p input :
  Forwarder.port_of argv = Some p -> ~ (0 <= p <= 65535)%Z ->
  Forwarder.session_hook_forwarder argv input
  = Forwarder.StdinResume
    :: (if input_ended input
        then [Forwarder.Uncaught
                (if Forwarder.valid_path (Forwarder.eventType_of argv)
                 then ERR_SOCKET_BAD_PORT else ERR_UNESCAPED_CHARACTERS)]
        else [])
  /\ forall options body,
       ~ In (Forwarder.HttpRequest options body)
            (Forwarder.session_hook_forwarder argv input).
Proof.
  intros Hp Hv.
  assert (H : Forwarder.session_hook_forwarder argv input
              = Forwarder.StdinResume
                :: (if input_ended input
                    then [Forwarder.Uncaught
                            (if Forwarder.valid_path
                                  (Forwarder.eventType_of argv)
                             then ERR_SOCKET_BAD_PORT
                             else ERR_UNESCAPED_CHARACTERS)]
                    else [])).
  { rewrite (@accepted_port_listens argv p input Hp) by lia.
    rewrite on_end_bad_port by exact Hv. reflexivity. }
  split; [exact H|].
  intros options body. rewrite H.
  destruct (input_ended input); simpl; intros [Hin|Hin];
    try discriminate Hin; try contradiction.
  destruct Hin as [Hin|[]]. discriminate Hin.
Qed.

Lemma port_range_is_not_checked_witness :
  Forwarder.session_hook_forwarder
    [str "node"; str "forwarder.cjs"; str "-70000"]
    [Forwarder.Chunk (json_bytes "{}"); Forwarder.Eof]
  = [Forwarder.StdinResume; Forwarder.Uncaught ERR_SOCKET_BAD_PORT].
Proof.
  refine (proj1 (@port_range_is_not_checked
                   [str "node"; str "forwarder.cjs"; str "-70000"] (-70000)%Z
                   [Forwarder.Chunk (json_bytes "{}"); Forwarder.Eof] _ _)).
  - vm_compute; reflexivity.
  - lia.
Defined.

(** X7.  With a valid port (1 to 65535) and an event type, named by the
    second argument or [session-start] by default, whose characters all lie
    in U+0021 to U+00FF, the forwarder sends nothing while standard input is
    open; when input ends it makes one request, to [/hook/] followed by that
    event type, whose body is the chunks received before the end; what comes
    after the end is ignored.  So it never makes more than one request. *)
Theorem request_waits_for_end argv p eventType input :
  Forwarder.port_of argv = Some p -> (1 <= p <= 65535)%Z ->
  named_event argv eventType -> Forwarder.valid_path eventType = true ->
  Forwarder.session_hook_forwarder argv input
  = Forwarder.StdinResume
    :: (if input_ended input
        then [post_request p eventType (Buffer_concat (before_end input))]
        else []).
Proof.
  intros Hp Hv Hn He.
  rewrite (@accepted_port_listens argv p input Hp) by lia.
  rewrite (named_event_of Hn), on_end_request by assumption. reflexivity.
Qed.

Lemma request_waits_for_end_witness :
  Forwarder.session_hook_forwarder
    [str "node"; str "forwarder.cjs"; str "52290"; str "stop"]
    [Forwarder.Chunk (json_bytes "{'a':"); Forwarder.Chunk (json_bytes "1")]
  = [Forwarder.StdinResume]
  /\ Forwarder.session_hook_forwarder
       [str "node"; str "forwarder.cjs"; str "52290"; str "stop"]
       [Forwarder.Chunk (json_bytes "{'a':"); Forwarder.Chunk (json_bytes "1}");
        Forwarder.Eof; Forwarder.Chunk (json_bytes "{}"); Forwarder.Eof]
     = [Forwarder.StdinResume;
        post_request 52290 (str "stop") (json_bytes "{'a':1}")].
Proof.
  split.
  - refine (@request_waits_for_end
              [str "node"; str "forwarder.cjs"; str "52290"; str "stop"]
              52290%Z (str "stop")
              [Forwarder.Chunk (json_bytes "{'a':");
               Forwarder.Chunk (json_bytes "1")] _ _ _ eq_refl).
    + vm_compute; reflexivity.
    + lia.
    + left. split; [reflexivity|discriminate].
  - refine (@request_waits_for_end
              [str "node"; str "forwarder.cjs"; str "52290"; str "stop"]
              52290%Z (str "stop")
              [Forwarder.Chunk (json_bytes "{'a':");
               Forwarder.Chunk (json_bytes "1}");
               Forwarder.Eof; Forwarder.Chunk (json_bytes "{}");
               Forwarder.Eof] _ _ _ eq_refl).
    + vm_compute; reflexivity.
    + lia.
    + left. split; [reflexivity|discriminate].
Defined.

(** X8.  What the forwarder does depends on the bytes of standard input,
    not on how they are cut into chunks: two inputs with the same bytes give
    the same request. *)
Theorem forwarder_ignores_chunking argv chunks chunks' :
  Buffer_concat chunks = Buffer_concat chunks' ->
  Forwarder.session_hook_forwarder argv
    (map Forwarder.Chunk chunks ++ [Forwarder.Eof])
  = Forwarder.session_hook_forwarder argv
      (map Forwarder.Chunk chunks' ++ [Forwarder.Eof]).
Proof.
  intros H. unfold Forwarder.session_hook_forwarder.
  destruct (Forwarder.rejected (Forwarder.port_of argv)); [reflexivity|].
  destruct (Forwarder.port_of argv) as [p|]; [|reflexivity].
  rewrite !listen_to_end. simpl. unfold Forwarder.on_end. rewrite H.
  reflexivity.
Qed.

Lemma forwarder_ignores_chunking_witness :
  Forwarder.session_hook_forwarder [str "node"; str "forwarder.cjs"; str "52290"]
    (map Forwarder.Chunk [json_bytes "{'session_id':"; json_bytes "'abc'}"]
     ++ [Forwarder.Eof])
  = Forwarder.session_hook_forwarder
      [str "node"; str "forwarder.cjs"; str "52290"]
      (map Forwarder.Chunk [json_bytes "{'session_id':'abc'}"]
       ++ [Forwarder.Eof]).
Proof.
  apply forwarder_ignores_chunking. reflexivity.
Defined.

(** * From the forwarder to the server *)






(** * The routes, over every sequence of events *)

(** The events of a request either leave the body arriving, or have a first
    event that ends its reading. *)
Lemma events_split evs :
  draining evs = true
  \/ exists pre t later,
       evs = pre ++ t :: later /\ draining pre = true /\ closes t.
Proof.
  induction evs as [|ev evs IH]; [left; reflexivity|].
  destruct ev as [c| |e|].
  - destruct IH as [H|(pre & t & later & -> & Hd & Ht)]; [left; exact H|right].
    exists (Data c :: pre), t, later. auto.
  - right. exists [], End, evs. repeat split. left; reflexivity.
  - right. exists [], (Fail e), evs. repeat split. right; eexists; reflexivity.
  - destruct IH as [H|(pre & t & later & -> & Hd & Ht)]; [left; exact H|right].
    exists (Timeout :: pre), t, later. auto.
Qed.

(** The extraction of the identifier leaves the world as it is. *)
Lemma sessionId_of_pure data :
  exists c, forall w, sessionId_of data w = (c, w).
Proof.
  unfold sessionId_of, bind, lift, ret.
  destruct (Get data (str "session_id")) as [a|e].
  - destruct (ToBoolean a); eexists; intros w; reflexivity.
  - eexists; intros w; reflexivity.
Qed.

Ltac pick_shape :=
  match goal with
  | |- exists l r, [Respond ?s ?h ?b] = l ++ r /\ _ =>
      exists [], [Respond s h b]
  | |- exists l r, [?c; Respond ?s ?h ?b] = l ++ r /\ _ =>
      exists [c], [Respond s h b]
  | |- exists l r, [?x] = ?x :: l ++ r /\ _ => exists [], []
  | |- exists l r, [?x; ?c] = ?x :: l ++ r /\ _ => exists [c], []
  end.

(** Splits on what the callbacks and the identifier turn out to be. *)
Ltac on_callbacks :=
  match goal with
  | |- context [onThinkingStart ?o] => destruct (onThinkingStart o) eqn:?
  | |- context [onThinkingStop ?o] => destruct (onThinkingStop o) eqn:?
  | |- context [ToBoolean ?x] => destruct (ToBoolean x) eqn:?
  | |- context [ToString_throws ?x] => destruct (ToString_throws x) eqn:?
  | |- context [onSessionHook ?o] => destruct (onSessionHook o) eqn:?
  | |- context [match ?f tt with _ => _ end] =>
      is_var f; destruct (f tt) as [[]|?] eqn:?
  | |- context [match ?f ?a ?b with _ => _ end] =>
      is_var f; destruct (f a b) as [[]|?] eqn:?
  end; simpl.

Ltac shape_facts :=
  split; [reflexivity|];
  split; [simpl; lia|];
  split; [repeat constructor|];
  split; [intros; first [reflexivity|discriminate]|];
  intros; try discriminate;
  first [ right; reflexivity
        | left; split; [reflexivity|];
          repeat constructor; simpl; eexists; split; eassumption ].

(** What the [try] block and its [catch] add to the trace at the end of
    the body: at most one call, of the callback of the route, and then the
    response if none was written before, 200 when every call made has
    returned and 500 otherwise. *)
Lemma try_block_shape o h chunks tm (fired : bool) :
  exists l r,
    trace (snd (try_catch (after_body o h chunks) (on_error h)
                  (World (if fired then [R408] else []) tm)))
    = (if fired then [R408] else []) ++ l ++ r
    /\ List.length l <= 1
    /\ Forall (fun e => callback_of h e = true) l
    /\ (fired = true -> r = [])
    /\ (fired = false ->
        (r = [R200] /\ Forall (returned o) l) \/ r = [R500]).
Proof.
  destruct (sessionId_of_pure
              (parse_data (toString_utf8 (Buffer_concat chunks)))) as [c Hc].
  destruct fired, h, tm; exec; rewrite ?Hc;
    try destruct c as [sessionId|e]; simpl;
    repeat on_callbacks; unfold R408; pick_shape; shape_facts.
Qed.

Lemma reading_world h pre :
  exists tm chunks,
    reading h pre
    = Call (World (if fired h pre then [R408] else []) tm) (Reading chunks) [].
Proof.
  destruct h; simpl; unfold session_reading, thinking_reading;
    try destruct (timed_out pre); eexists; eexists; reflexivity.
Qed.

Lemma step_End o h w chunks errors :
  step o (Some h) (Call w (Reading chunks) errors) End
  = run (try_catch (after_body o h chunks) (on_error h)) Returned
        (Call w (Reading chunks) errors).
Proof. reflexivity. Qed.

(** A request whose body has been read to its end, or has failed. *)
Lemma closed_shape o m u h pre t later :
  route m u = Some h -> draining pre = true -> closes t ->
  exists l r,
    effects o (Request m u (pre ++ t :: later))
    = (if fired h pre then [R408] else []) ++ l ++ r
    /\ List.length l <= 1
    /\ Forall (fun e => callback_of h e = true) l
    /\ (fired h pre = true -> r = [])
    /\ (fired h pre = false ->
        (t = End /\ r = [R200] /\ Forall (returned o) l) \/ r = [R500]).
Proof.
  intros Hr Hd [->|[e ->]].
  - unfold effects. rewrite (ended o m u pre later Hr Hd).
    destruct (reading_world h pre) as (tm & chunks & ->).
    rewrite step_End, run_returns by apply try_catch_returns.
    simpl world_of.
    destruct (try_block_shape o h chunks tm (fired h pre))
      as (l & r & Ht & Hl & Hc & Hf & Hn).
    exists l, r. repeat split; auto.
    intros H. destruct (Hn H) as [[-> Hret] | ->]; auto.
  - rewrite (stream_failure o m u pre e later Hr Hd).
    unfold effects. rewrite (drained o m u pre Hr Hd).
    destruct (reading_world h pre) as (tm & chunks & ->). simpl.
    exists [], (if fired h pre then [] else [R500]).
    destruct (fired h pre); simpl; repeat split; auto; discriminate.
Qed.

(** Every routed request, whatever happens to it. *)
Lemma routed_shape o m u h evs :
  route m u = Some h ->
  (draining evs = true
   /\ effects o (Request m u evs) = if fired h evs then [R408] else [])
  \/ exists pre t later l r,
       evs = pre ++ t :: later /\ draining pre = true /\ closes t
       /\ effects o (Request m u evs)
          = (if fired h pre then [R408] else []) ++ l ++ r
       /\ List.length l <= 1
       /\ Forall (fun e => callback_of h e = true) l
       /\ (fired h pre = true -> r = [])
       /\ (fired h pre = false ->
           (t = End /\ r = [R200] /\ Forall (returned o) l) \/ r = [R500]).
Proof.
  intros Hr. destruct (events_split evs) as [Hd|(pre & t & later & -> & Hd & Ht)].
  - left. split; [exact Hd|]. unfold effects. rewrite (drained o m u evs Hr Hd).
    destruct (reading_world h evs) as (tm & chunks & ->). reflexivity.
  - right. destruct (@closed_shape o m u h pre t later Hr Hd Ht) as (l & r & H).
    exists pre, t, later, l, r. tauto.
Qed.

Lemma calls_of_callbacks h l :
  Forall (fun e => callback_of h e = true) l -> calls l = l.
Proof.
  induction 1 as [|e l He _ IH]; [reflexivity|].
  unfold calls in *; simpl. rewrite IH.
  destruct h, e; try discriminate; reflexivity.
Qed.

Lemma responses_of_callbacks h l :
  Forall (fun e => callback_of h e = true) l -> responses l = [].
Proof.
  induction 1 as [|e l He _ IH]; [reflexivity|].
  unfold responses in *; simpl. rewrite IH.
  destruct h, e; try discriminate; reflexivity.
Qed.

Lemma statuses_of_callbacks h l :
  Forall (fun e => callback_of h e = true) l -> statuses l = [].
Proof.
  induction 1 as [|e l He _ IH]; [reflexivity|].
  unfold statuses in *; simpl. rewrite IH.
  destruct h, e; try discriminate; reflexivity.
Qed.

Lemma statuses_app t t' : statuses (t ++ t') = statuses t ++ statuses t'.
Proof. apply flat_map_app. Qed.

(** X11.  A request calls at most one callback, at most once, and only the
    callback of its route: [onThinkingStart] on [/hook/user-prompt-submit],
    [onThinkingStop] on [/hook/stop], [onSessionHook] on
    [/hook/session-start]; this whatever happens to the request, and in
    particular however late its body ends. *)
Theorem callback_called_at_most_once o q :
  List.length (calls (effects o q)) <= 1
  /\ forall e, In e (calls (effects o q)) ->
       exists h, route (method q) (url q) = Some h /\ callback_of h e = true.
Proof.
  destruct q as [m u evs]; simpl.
  destruct (route m u) as [h|] eqn:Hr.
  - assert (H : exists l, calls (effects o (Request m u evs)) = l
                          /\ List.length l <= 1
                          /\ Forall (fun e => callback_of h e = true) l).
    { destruct (@routed_shape o m u h evs Hr)
        as [[_ ->]|(pre & t & later & l & r & _ & _ & _ & -> & Hl & Hc & Hf & Hn)].
      - exists []. destruct (fired h evs); repeat split; auto.
      - exists l. split; [|auto].
        rewrite !calls_app, (@calls_of_callbacks h l Hc).
        assert (Hrr : calls r = []).
        { destruct (fired h pre); [rewrite Hf by reflexivity; reflexivity|].
          destruct (Hn eq_refl) as [(_ & -> & _)| ->]; reflexivity. }
        rewrite Hrr. destruct (fired h pre); simpl; apply app_nil_r. }
    destruct H as (l & -> & Hl & Hc). split; [exact Hl|].
    intros e He. exists h. split; [reflexivity|].
    rewrite Forall_forall in Hc. apply Hc, He.
  - unfold effects, handle; simpl. rewrite Hr, unrouted. simpl.
    split; [lia|intros e []].
Qed.

(** X12.  Once the body of a routed request has ended or its stream has
    failed, the request has exactly one response, and nothing that happens
    to it afterwards (more data, a second end, the timer) changes what it
    did. *)
Theorem one_response_once_closed o m u h pre t later :
  route m u = Some h -> draining pre = true -> closes t ->
  (exists response,
      responses (effects o (Request m u (pre ++ t :: later))) = [response])
  /\ effects o (Request m u (pre ++ t :: later))
     = effects o (Request m u (pre ++ [t])).
Proof.
  intros Hr Hd Ht. split.
  - destruct (@closed_shape o m u h pre t later Hr Hd Ht) as (l & r & -> & _ & Hc & Hf & Hn).
    rewrite !responses_app, (@responses_of_callbacks h l Hc).
    destruct (fired h pre).
    + rewrite Hf by reflexivity. eexists; reflexivity.
    + destruct (Hn eq_refl) as [(_ & -> & _)| ->]; eexists; reflexivity.
  - unfold effects. destruct Ht as [->|[e ->]].
    + rewrite !(ended o m u pre _ Hr Hd). reflexivity.
    + rewrite !(failed o m u pre e _ Hr Hd). reflexivity.
Qed.

Lemma one_response_once_closed_witness :
  (exists response,
      responses (effects throwing
                   (stop ([Data (json_bytes "{}")] ++ End :: [End; Timeout])))
      = [response])
  /\ effects throwing (stop ([Data (json_bytes "{}")] ++ End :: [End; Timeout]))
     = effects throwing (stop ([Data (json_bytes "{}")] ++ [End])).
Proof.
  refine (@one_response_once_closed throwing (str "POST") (str "/hook/stop")
            Stop [Data (json_bytes "{}")] End [End; Timeout] eq_refl eq_refl _).
  left; reflexivity.
Defined.

(** X13.  While the body of a request is still arriving, the two thinking
    routes do nothing at all, however long it takes and whatever timers come
    due: they have no timeout.  The session route does nothing either, until
    its timer comes due, and then writes its 408 and nothing more.  No
    callback is called before the body has ended. *)
Theorem while_the_body_arrives o m u pre :
  draining pre = true ->
  effects o (Request m u pre)
  = match route m u with
    | Some SessionStart => if timed_out pre then [R408] else []
    | Some _ => []
    | None => [R404]
    end.
Proof.
  intros Hd. destruct (route m u) as [h|] eqn:Hr.
  - unfold effects. rewrite (drained o m u pre Hr Hd).
    destruct h; try reflexivity. simpl. destruct (timed_out pre); reflexivity.
  - unfold effects, handle; simpl. rewrite Hr, unrouted. reflexivity.
Qed.

Lemma while_the_body_arrives_witness :
  effects returning (stop [Data (json_bytes "{"); Timeout; Data (json_bytes "}")])
  = [].
Proof.
  exact (@while_the_body_arrives returning (str "POST") (str "/hook/stop")
           [Data (json_bytes "{"); Timeout; Data (json_bytes "}")] eq_refl).
Defined.

Lemma timed_out_split pre :
  draining pre = true -> timed_out pre = true ->
  exists a b, pre = a ++ Timeout :: b /\ draining a = true.
Proof.
  induction pre as [|ev pre IH]; simpl; [discriminate|].
  intros Hd Ht. apply andb_true_iff in Hd as [Hev Hd].
  destruct ev; try discriminate.
  - destruct (IH Hd Ht) as (a & b & -> & Ha).
    exists (Data chunk :: a), b. auto.
  - exists [], pre. auto.
Qed.

Lemma fired_session h pre :
  fired h pre = true -> h = SessionStart /\ timed_out pre = true.
Proof. destruct h; simpl; try discriminate. auto. Qed.

(** X14.  A 408 is written by the timer of the session route and by nothing
    else: a request is answered 408 only if it is for
    [/hook/session-start] and its timer came due while its body was still
    arriving. *)
Theorem only_the_timer_answers_408 o q :
  In 408 (statuses (effects o q)) ->
  route (method q) (url q) = Some SessionStart
  /\ exists pre rest,
       events q = pre ++ Timeout :: rest /\ draining pre = true.
Proof.
  destruct q as [m u evs]; simpl. intros H.
  destruct (route m u) as [h|] eqn:Hr.
  - destruct (@routed_shape o m u h evs Hr)
      as [[Hd He]|(pre & t & later & l & r & -> & Hd & _ & He & _ & Hc & Hf & Hn)];
      rewrite He in H.
    + destruct (fired h evs) eqn:F; [|destruct H].
      destruct (fired_session _ _ F) as [-> Ht]. split; [reflexivity|].
      destruct (timed_out_split _ Hd Ht) as (a & b & -> & Ha). eauto.
    + destruct (fired h pre) eqn:F.
      * destruct (fired_session _ _ F) as [-> Ht]. split; [reflexivity|].
        destruct (timed_out_split _ Hd Ht) as (a & b & -> & Ha).
        exists a, (b ++ t :: later). rewrite <- app_assoc. auto.
      * exfalso. rewrite !statuses_app, (@statuses_of_callbacks h l Hc) in H.
        destruct (Hn eq_refl) as [(_ & -> & _)| ->]; simpl in H;
          destruct H as [H|[]]; discriminate H.
  - exfalso. unfold effects, handle in H; simpl in H.
    rewrite Hr, unrouted in H. simpl in H. destruct H as [H|[]]; discriminate H.
Qed.

Lemma only_the_timer_answers_408_witness :
  route (str "POST") (str "/hook/session-start") = Some SessionStart
  /\ exists pre rest,
       [Data (json_bytes "{"); Timeout; End] = pre ++ Timeout :: rest
       /\ draining pre = true.
Proof.
  refine (@only_the_timer_answers_408 returning
            (session_start [Data (json_bytes "{"); Timeout; End]) _).
  vm_compute. left; reflexivity.
Defined.

(** X15.  A 200 certifies the request: it is written only when the body has
    been received to its end, without a failure of the stream before and,
    on the session route, before the timer came due; and every callback the
    request called was registered and returned without throwing. *)
Theorem ok_means_body_read_and_callback_returned o q :
  In 200 (statuses (effects o q)) ->
  (exists h pre later,
      route (method q) (url q) = Some h
      /\ events q = pre ++ End :: later
      /\ draining pre = true
      /\ fired h pre = false)
  /\ Forall (returned o) (calls (effects o q)).
Proof.
  destruct q as [m u evs]; simpl. intros H.
  destruct (route m u) as [h|] eqn:Hr.
  - destruct (@routed_shape o m u h evs Hr)
      as [[Hd He]|(pre & t & later & l & r & -> & Hd & _ & He & _ & Hc & Hf & Hn)];
      rewrite He in *.
    + exfalso. destruct (fired h evs); simpl in H; [|destruct H].
      destruct H as [H|[]]; discriminate H.
    + rewrite !statuses_app, (@statuses_of_callbacks h l Hc) in H.
      destruct (fired h pre) eqn:F.
      * exfalso. rewrite (Hf eq_refl) in H. simpl in H.
        destruct H as [H|[]]; discriminate H.
      * destruct (Hn eq_refl) as [(-> & -> & Hret)| ->].
        -- split; [exists h, pre, later; auto|].
           rewrite !calls_app, (@calls_of_callbacks h l Hc). simpl.
           rewrite app_nil_r. exact Hret.
        -- exfalso. simpl in H. destruct H as [H|[]]; discriminate H.
  - exfalso. unfold effects, handle in H; simpl in H.
    rewrite Hr, unrouted in H. simpl in H. destruct H as [H|[]]; discriminate H.
Qed.

Lemma ok_means_body_read_and_callback_returned_witness :
  Forall (returned returning)
         (calls (effects returning (stop [Data (json_bytes "{}"); End]))).
Proof.
  refine (proj2 (@ok_means_body_read_and_callback_returned returning
                   (stop [Data (json_bytes "{}"); End]) _)).
  vm_compute. left; reflexivity.
Defined.



(** X17.  What the server does with a body depends on its bytes, not on
    the chunks they arrive in: two requests for the same method and target
    whose bodies end, with the same bytes received and the timer due in
    both or in neither, do the same. *)
Theorem server_ignores_chunking o m u pre pre' later later' :
  draining pre = true -> draining pre' = true ->
  timed_out pre = timed_out pre' ->
  Buffer_concat (received pre) = Buffer_concat (received pre') ->
  effects o (Request m u (pre ++ End :: later))
  = effects o (Request m u (pre' ++ End :: later')).
Proof.
  intros Hd Hd' Ht Hb. destruct (route m u) as [h|] eqn:Hr.
  - unfold effects.
    rewrite (ended o m u pre later Hr Hd), (ended o m u pre' later' Hr Hd').
    destruct h; try reflexivity.
    simpl reading. rewrite <- Ht.
    unfold session_reading. destruct (timed_out pre);
      rewrite !step_End; unfold after_body, session_hook; rewrite Hb;
      reflexivity.
  - unfold effects, handle; simpl. rewrite Hr, !unrouted. reflexivity.
Qed.

Lemma server_ignores_chunking_witness :
  effects returning
    (session_start ([Data (json_bytes "{'session_id':"); Data (json_bytes "'abc'}")]
                    ++ End :: []))
  = effects returning
      (session_start ([Data (json_bytes "{'session_id':'abc'}")] ++ End :: [])).
Proof.
  exact (@server_ignores_chunking returning (str "POST")
           (str "/hook/session-start")
           [Data (json_bytes "{'session_id':"); Data (json_bytes "'abc'}")]
           [Data (json_bytes "{'session_id':'abc'}")] [] []
           eq_refl eq_refl eq_refl eq_refl).
Defined.
